(** * The Move component of the slider: position engine, loop engine, orchestrator

    A shallow embedding of [src/js/components/Move/Move.ts] in its two
    revisions (the flag-based one, module [Earlier], and the cancel-and-restart
    one, module [Revised]) together with the properties of the specification
    that concern them.

  Numbers are JavaScript numbers with exact rational arithmetic on the
    finite ones: [NaN] and the two infinities are values of their own and
    follow the IEEE rules; rounding and the sign of zero are not modelled. *)

From Stdlib Require Import ZArith QArith Qabs Qround Qminmax List Sorted Bool Lia Lqa.
Import ListNotations.

Open Scope Q_scope.

(** ** JavaScript numbers *)

Module JS.

Inductive num : Type :=
| NaN
| PInf
| NInf
| Fin (q : Q).

(** The value [Infinity]. *)
Definition Infinity : num := PInf.

Definition neg (a : num) : num :=
  match a with
  | NaN => NaN
  | PInf => NInf
  | NInf => PInf
  | Fin q => Fin (- q)
  end.

Definition add (a b : num) : num :=
  match a, b with
  | NaN, _ | _, NaN => NaN
  | PInf, NInf | NInf, PInf => NaN
  | PInf, _ | _, PInf => PInf
  | NInf, _ | _, NInf => NInf
  | Fin x, Fin y => Fin (x + y)
  end.

Definition sub (a b : num) : num := add a (neg b).

(** An infinity with the sign of [c], [NaN] when [c] is zero. *)
Definition signed_inf (positive : bool) (c : comparison) : num :=
  match c with
  | Eq => NaN
  | Gt => if positive then PInf else NInf
  | Lt => if positive then NInf else PInf
  end.

Definition mul (a b : num) : num :=
  match a, b with
  | NaN, _ | _, NaN => NaN
  | PInf, PInf | NInf, NInf => PInf
  | PInf, NInf | NInf, PInf => NInf
  | PInf, Fin y | Fin y, PInf => signed_inf true (y ?= 0)
  | NInf, Fin y | Fin y, NInf => signed_inf false (y ?= 0)
  | Fin x, Fin y => Fin (x * y)
  end.

(** Division; a zero divisor is taken as [+0]. *)
Definition div (a b : num) : num :=
  match a, b with
  | NaN, _ | _, NaN => NaN
  | (PInf | NInf), (PInf | NInf) => NaN
  | PInf, Fin y => match y ?= 0 with Lt => NInf | _ => PInf end
  | NInf, Fin y => match y ?= 0 with Lt => PInf | _ => NInf end
  | Fin _, (PInf | NInf) => Fin 0
  | Fin x, Fin y =>
      match y ?= 0 with
      | Eq => signed_inf true (x ?= 0)
      | _ => Fin (x / y)
      end
  end.

(** [Math.abs] *)
Definition abs (a : num) : num :=
  match a with
  | NaN => NaN
  | PInf | NInf => PInf
  | Fin q => Fin (Qabs q)
  end.

(** [Math.ceil] *)
Definition ceil (a : num) : num :=
  match a with
  | Fin q => Fin (inject_Z (Qceiling q))
  | other => other
  end.

(** [Math.min] and [Math.max] *)
Definition min (a b : num) : num :=
  match a, b with
  | NaN, _ | _, NaN => NaN
  | NInf, _ | _, NInf => NInf
  | PInf, c | c, PInf => c
  | Fin x, Fin y => Fin (Qmin x y)
  end.

Definition max (a b : num) : num :=
  match a, b with
  | NaN, _ | _, NaN => NaN
  | PInf, _ | _, PInf => PInf
  | NInf, c | c, NInf => c
  | Fin x, Fin y => Fin (Qmax x y)
  end.

(** [a < b], [a <= b], [a > b]: false as soon as one side is [NaN]. *)
Definition lt (a b : num) : bool :=
  match a, b with
  | NaN, _ | _, NaN => false
  | _, NInf | PInf, _ => false
  | NInf, _ | _, PInf => true
  | Fin x, Fin y => match x ?= y with Lt => true | _ => false end
  end.

Definition le (a b : num) : bool :=
  match a, b with
  | NaN, _ | _, NaN => false
  | NInf, _ | _, PInf => true
  | _, NInf | PInf, _ => false
  | Fin x, Fin y => Qle_bool x y
  end.

Definition gt (a b : num) : bool := lt b a.

(** [a === b] and [a !== b] on numbers: [NaN] differs from itself. *)
Definition strict_eq (a b : num) : bool :=
  match a, b with
  | PInf, PInf | NInf, NInf => true
  | Fin x, Fin y => Qeq_bool x y
  | _, _ => false
  end.

Definition strict_neq (a b : num) : bool := negb (strict_eq a b).

(** Truthiness of a number: everything but zero and [NaN]. *)
Definition truthy (a : num) : bool :=
  match a with
  | NaN => false
  | Fin q => negb (Qeq_bool q 0)
  | _ => true
  end.

(** [a || b] on numbers. *)
Definition or_else (a b : num) : num := if truthy a then a else b.

(** The same value, finite values compared as rationals. *)
Definition same (a b : num) : Prop :=
  match a, b with
  | NaN, NaN | PInf, PInf | NInf, NInf => True
  | Fin x, Fin y => x == y
  | _, _ => False
  end.

End JS.

Notation "a =~= b" := (JS.same a b) (at level 70, no associativity).

(** ** Helpers of [utils]

    [abs] and [ceil] of [utils] are [Math.abs] and [Math.ceil], [JS.abs] and
    [JS.ceil] above; [isUndefined] is the test of an optional argument. *)

(** Modelled from the spec: [sign] of [utils] is not under [src/]; the spec
    uses it as the sign of the excess, so it is [-1], [0] or [1]; on [NaN] it
    is taken as [Math.sign] has it. *)
Definition sign (x : JS.num) : JS.num :=
  match x with
  | JS.NaN => JS.NaN
  | JS.PInf => JS.Fin 1
  | JS.NInf => JS.Fin (-1)
  | JS.Fin q =>
      match q ?= 0 with
      | Lt => JS.Fin (-1)
      | Eq => JS.Fin 0
      | Gt => JS.Fin 1
      end
  end.

(** Modelled from the spec: [clamp] of [utils] is not under [src/]; the spec
    has the position clamped into the interval between the two bounds, which
    [trim] passes in either order depending on the orientation. *)
Definition clamp (number x y : JS.num) : JS.num :=
  let minimum := JS.min x y in
  let maximum := JS.max x y in
  JS.min (JS.max minimum number) maximum.

(** ** Options, collaborators and the DOM *)

(** [options.type], tested with [Splide.is]. *)
Inductive SliderType : Type := SLIDE | LOOP | FADE.

Definition SliderType_eqb (a b : SliderType) : bool :=
  match a, b with
  | SLIDE, SLIDE | LOOP, LOOP | FADE, FADE => true
  | _, _ => false
  end.

(** [options.trimSpace : boolean | 'move'] *)
Inductive TrimSpace : Type := TrimOff | TrimOn | TrimMove.

(** [options.focus : number | 'center'], possibly absent. *)
Inductive Focus : Type := FocusNone | FocusCenter | FocusNumber (f : Q).

Record Options : Type := {
  type : SliderType;
  trimSpace : TrimSpace;
  focus : Focus;
  waitForTransition : bool
}.

(** Truthiness of [options.trimSpace]. *)
Definition trimSpace_truthy (o : Options) : bool :=
  match trimSpace o with TrimOff => false | _ => true end.

(** The geometry queries of [Components.Layout]; they return measurements. *)
Record LayoutComponent : Type := {
  slideSize : Z -> bool -> Q;
  getPadding : bool -> Q;
  totalSize : Z -> Q;
  listSize : Q;
  sliderSize : Q
}.

Inductive Axis : Type := AxisX | AxisY.

(** [Components.Direction]. *)
Record DirectionComponent : Type := {
  reversed : bool;
  resolveX : Axis
}.

Record Components : Type := {
  Layout : LayoutComponent;
  Direction : DirectionComponent;
  Slides : list Z;
  getEnd : Z
}.

(** Modelled from the spec: [orient] of the Direction component is not under
    [src/]; the spec gives it as returning the sign-adjusted value, so it
    multiplies by [1] or by [-1] according to the direction. *)
Definition orient (C : Components) (value : JS.num) : JS.num :=
  JS.mul value (JS.Fin (if reversed (Direction C) then -1 else 1)).

(** Modelled from the spec: [Splide.is] is not under [src/]; it tests the
    slider's mode. *)
Definition is_type (o : Options) (t : SliderType) : bool :=
  SliderType_eqb (type o) t.

(** What [Move] reads from and writes to the document: the resolved leading
    edges of the list and of the track, and the two components of the
    [translate3d] written on the list. *)
Record Dom : Type := {
  rectList : Q;
  rectTrack : Q;
  transform : option (JS.num * JS.num)
}.

(** ** The position engine, the same text in both revisions *)

Section PositionEngine.

Variable C : Components.
Variable options : Options.

(** [offset( index )] *)
Definition offset (index : Z) : JS.num :=
  match focus options with
  | FocusCenter =>
      JS.div (JS.sub (JS.Fin (listSize (Layout C)))
                     (JS.Fin (slideSize (Layout C) index true)))
             (JS.Fin 2)
  | FocusNumber f =>
      JS.or_else (JS.mul (JS.Fin f) (JS.Fin (slideSize (Layout C) index false)))
                 (JS.Fin 0)
  | FocusNone =>
      JS.or_else (JS.mul JS.NaN (JS.Fin (slideSize (Layout C) index false)))
                 (JS.Fin 0)
  end.

(** [trim( position )] *)
Definition trim (position : JS.num) : JS.num :=
  if trimSpace_truthy options && is_type options SLIDE
  then clamp position (JS.Fin 0)
             (orient C (JS.sub (JS.Fin (sliderSize (Layout C)))
                               (JS.Fin (listSize (Layout C)))))
  else position.

(** [toPosition( index, trimming )]; an omitted [trimming] is [false]. *)
Definition toPosition (index : Z) (trimming : bool) : JS.num :=
  let position :=
    orient C (JS.sub (JS.Fin (totalSize (Layout C) (index - 1))) (offset index)) in
  if trimming then trim position else position.

(** [getLimit( max )] *)
Definition getLimit (max : bool) : JS.num :=
  toPosition (if max then getEnd C else 0%Z) (trimSpace_truthy options).

(** [getPosition()] *)
Definition getPosition (d : Dom) : JS.num :=
  JS.add (JS.sub (JS.Fin (rectList d)) (JS.Fin (rectTrack d)))
         (orient C (JS.Fin (getPadding (Layout C) false))).

(** [exceededLimit( max, position )]; [None] is [undefined]. *)
Definition exceededLimit (d : Dom) (max : option bool) (position : option JS.num) : bool :=
  let position := match position with None => getPosition d | Some p => p end in
  let exceededMin :=
    negb (match max with Some true => true | _ => false end)
    && JS.lt (orient C position) (orient C (getLimit false)) in
  let exceededMax :=
    negb (match max with Some false => true | _ => false end)
    && JS.gt (orient C position) (orient C (getLimit true)) in
  exceededMin || exceededMax.

(** The loop of [toIndex]: [index] and [minDistance] are the two mutable
    locals, the list is what remains of [Slides]. *)
Fixpoint toIndex_scan (position : JS.num) (slides : list Z)
         (index : Z) (minDistance : JS.num) : Z :=
  match slides with
  | [] => index
  | slideIndex :: rest =>
      let distance := JS.abs (JS.sub (toPosition slideIndex true) position) in
      if JS.le distance minDistance
      then toIndex_scan position rest slideIndex distance
      else index
  end.

(** [toIndex( position )] *)
Definition toIndex (position : JS.num) : Z :=
  toIndex_scan position (Slides C) 0%Z JS.Infinity.

End PositionEngine.

(** ** State, notifications and calls to the collaborators *)

Inductive State : Type := IDLE | MOVING.

Inductive Event : Type :=
  | EVENT_MOVE (index prev dest : Z)
  | EVENT_MOVED (index prev dest : Z)
  | EVENT_SHIFTED.

(** A callback handed to [move] is opaque; it is known by a name. *)
Definition Callback : Type := nat.

(** What the completion callback of the earlier [move] captures. *)
Record MoveClosure : Type := {
  cl_dest : Z;
  cl_index : Z;
  cl_prev : Z;
  cl_position : JS.num;
  cl_looping : bool;
  cl_callback : option Callback
}.

(** What [Move] does to the outside, in the order it does it. *)
Inductive Effect : Type :=
  | Emit (e : Event)
  | TransitionStart (target : Z) (k : MoveClosure)
  | TransitionCancel
  | ControllerGo (forwards : bool) (allowSameIndex : bool) (callback : option Callback)
  | Invoke (callback : Callback).

(** The mutable state [Move] works on: its local [waiting] (earlier revision
    only, [undefined] read as [false]), [Splide.state], the document and the
    trace of effects. *)
Record World : Type := {
  waiting : bool;
  state : State;
  dom : Dom;
  trace : list Effect
}.

Definition set_waiting (w : World) (b : bool) : World :=
  {| waiting := b; state := state w; dom := dom w; trace := trace w |}.

Definition set (w : World) (s : State) : World :=
  {| waiting := waiting w; state := s; dom := dom w; trace := trace w |}.

Definition perform (w : World) (e : Effect) : World :=
  {| waiting := waiting w; state := state w; dom := dom w; trace := trace w ++ [e] |}.

Definition emit (w : World) (e : Event) : World := perform w (Emit e).

(** Writing [translate3d( x, y, 0 )] on the list: the axis that is not the
    resolved one is pinned to [0]. *)
Definition write_transform (C : Components) (w : World) (p : JS.num) : World :=
  let translateDirection := resolveX (Direction C) in
  let x := match translateDirection with AxisY => JS.Fin 0 | AxisX => p end in
  let y := match translateDirection with AxisX => JS.Fin 0 | AxisY => p end in
  {| waiting := waiting w; state := state w;
     dom := {| rectList := rectList (dom w); rectTrack := rectTrack (dom w);
               transform := Some (x, y) |};
     trace := trace w |}.

(** Truthiness of an optional boolean argument. *)
Definition given (b : option bool) : bool :=
  match b with Some true => true | _ => false end.

(** [getPosition()] called in the turn in which [Move] has or has not
    [written] the list: the browser lays the list out on the offset written,
    so after a write the position read is that offset along the resolved
    axis; without one it is read from the document as it was. *)
Definition getPosition_after (C : Components) (w : World) (written : bool) : JS.num :=
  match written, transform (dom w) with
  | true, Some (x, y) =>
      match resolveX (Direction C) with AxisX => x | AxisY => y end
  | _, _ => getPosition C (dom w)
  end.

(** ** The earlier revision: [src/js/components/Move/Move.ts] *)

Module Earlier.
Section Move.

Variable C : Components.
Variable options : Options.

(** [isBusy()] *)
Definition isBusy (w : World) : bool := waiting w.

(** [shift( position, backwards )] *)
Definition shift (position : JS.num) (backwards : bool) : JS.num :=
  let excess := JS.sub position (getLimit C options backwards) in
  let size := JS.Fin (sliderSize (Layout C)) in
  JS.sub position
         (JS.mul (JS.mul (sign excess) size) (JS.ceil (JS.div (JS.abs excess) size))).

(** [loop( position )] *)
Definition loop (w : World) (position : JS.num) : JS.num :=
  if negb (waiting w) && is_type options LOOP then
    let diff := orient C (JS.sub position (getPosition C (dom w))) in
    let exceededMin :=
      exceededLimit C options (dom w) (Some false) (Some position)
      && JS.lt diff (JS.Fin 0) in
    let exceededMax :=
      exceededLimit C options (dom w) (Some true) (Some position)
      && JS.gt diff (JS.Fin 0) in
    if exceededMin || exceededMax then shift position exceededMax else position
  else position.

(** [translate( position, preventLoop )] *)
Definition translate (w : World) (position : JS.num) (preventLoop : option bool) : World :=
  if negb (is_type options FADE) then
    let translatePosition := if given preventLoop then position else loop w position in
    write_transform C w translatePosition
  else w.

(** [jump( index )] *)
Definition jump (w : World) (index : Z) : World :=
  translate w (toPosition C options index true) None.

(** [move( dest, index, prev, callback )] up to the call of the transition
    driver, which receives the completion callback as a closure. *)
Definition move (w : World) (dest index prev : Z) (callback : option Callback) : World :=
  if negb (isBusy w) then
    let position := getPosition C (dom w) in
    let looping := negb (dest =? index)%Z in
    let w := set_waiting w (looping || waitForTransition options) in
    let w := set w MOVING in
    let w := emit w (EVENT_MOVE index prev dest) in
    perform w (TransitionStart dest
                 {| cl_dest := dest; cl_index := index; cl_prev := prev;
                    cl_position := position; cl_looping := looping;
                    cl_callback := callback |})
  else w.

(** The completion callback that [move] hands to the transition driver. Its
    [getPosition()] comes after [looping && jump( index )]: when the jump
    wrote the list, the position read is the one just written. *)
Definition move_done (w : World) (k : MoveClosure) : World :=
  let w := if cl_looping k then jump w (cl_index k) else w in
  let w := set_waiting w false in
  let w := set w IDLE in
  let w := emit w (EVENT_MOVED (cl_index k) (cl_prev k) (cl_dest k)) in
  if match trimSpace options with TrimMove => true | _ => false end
     && negb (cl_dest k =? cl_prev k)%Z
     && JS.strict_eq (cl_position k)
          (getPosition_after C w (cl_looping k && negb (is_type options FADE)))
  then perform w (ControllerGo (cl_prev k <? cl_dest k)%Z false (cl_callback k))
  else match cl_callback k with
       | Some f => perform w (Invoke f)
       | None => w
       end.

(** [cancel()] *)
Definition cancel (w : World) : World :=
  let w := set_waiting w false in
  let w := translate w (getPosition C (dom w)) None in
  perform w TransitionCancel.

End Move.
End Earlier.

(** ** The revised revision *)

Module Revised.
Section Move.

Variable C : Components.
Variable options : Options.

(** [shift( position, backwards )] *)
Definition shift (position : JS.num) (backwards : bool) : JS.num :=
  let excess := JS.sub position (getLimit C options backwards) in
  let size := JS.Fin (sliderSize (Layout C)) in
  JS.sub position
         (JS.mul (orient C (JS.mul size
                              (JS.or_else (JS.ceil (JS.div (JS.abs excess) size))
                                          (JS.Fin 1))))
                 (JS.Fin (if backwards then 1 else -1))).

(** [loop( position )] *)
Definition loop (w : World) (position : JS.num) : JS.num :=
  if is_type options LOOP then
    let diff := orient C (JS.sub position (getPosition C (dom w))) in
    let exceededMin :=
      exceededLimit C options (dom w) (Some false) (Some position)
      && JS.lt diff (JS.Fin 0) in
    let exceededMax :=
      exceededLimit C options (dom w) (Some true) (Some position)
      && JS.gt diff (JS.Fin 0) in
    if exceededMin || exceededMax then shift position exceededMax else position
  else position.

(** [translate( position, preventLoop )] *)
Definition translate (w : World) (position : JS.num) (preventLoop : option bool) : World :=
  if negb (is_type options FADE) then
    let destination := if given preventLoop then position else loop w position in
    let w := write_transform C w destination in
    if JS.strict_neq position destination then emit w EVENT_SHIFTED else w
  else w.

(** [jump( index )] *)
Definition jump (w : World) (index : Z) : World :=
  translate w (toPosition C options index true) None.

(** [cancel()] *)
Definition cancel (w : World) : World :=
  let w := translate w (getPosition C (dom w)) None in
  perform w TransitionCancel.

End Move.
End Revised.

(** ** Concrete sliders *)

(** Five slides of width [100] without gap: the list of width [listW] shows
    [listW / 100] of them. *)
Definition five_layout (listW : Q) : LayoutComponent :=
  {| slideSize := fun _ _ => 100;
     getPadding := fun _ => 0;
     totalSize := fun i => if ((0 <=? i) && (i <? 5))%Z then inject_Z (100 * (i + 1)) else 0;
     listSize := listW;
     sliderSize := 500 |}.

Definition five_slides (rev : bool) (listW : Q) (e : Z) : Components :=
  {| Layout := five_layout listW;
     Direction := {| reversed := rev; resolveX := AxisX |};
     Slides := [0; 1; 2; 3; 4]%Z;
     getEnd := e |}.

Definition plain_options (t : SliderType) (ts : TrimSpace) : Options :=
  {| type := t; trimSpace := ts; focus := FocusNumber 0; waitForTransition := true |}.

(** A move that neither loops nor waits for the transition. *)
Definition free_options : Options :=
    {| type := SLIDE; trimSpace := TrimOff; focus := FocusNumber 0;
       waitForTransition := false |}.

Definition dom_at (p : Q) : Dom :=
  {| rectList := p; rectTrack := 0; transform := None |}.

Definition world_at (p : Q) : World :=
  {| waiting := false; state := IDLE; dom := dom_at p; trace := [] |}.

(** ** Values and predicates used in the statements *)

Section Values.

Variable C : Components.
Variable options : Options.

(** The factor [orient] multiplies by. *)
Definition orient_factor : Q := if reversed (Direction C) then -1 else 1.

(** The rational that [offset] returns. *)
Definition offset_value (index : Z) : Q :=
  match focus options with
  | FocusCenter => (listSize (Layout C) - slideSize (Layout C) index true) / 2
  | FocusNumber f => f * slideSize (Layout C) index false
  | FocusNone => 0
  end.

(** The rational that [toPosition] returns without trimming. *)
Definition raw_value (index : Z) : Q :=
  (totalSize (Layout C) (index - 1) - offset_value index) * orient_factor.

(** The second bound of the clamp of [trim]. *)
Definition trim_bound : Q :=
  (sliderSize (Layout C) + - listSize (Layout C)) * orient_factor.

(** The distance [toIndex] computes for a candidate. *)
Definition distance (position : JS.num) (slideIndex : Z) : JS.num :=
  JS.abs (JS.sub (toPosition C options slideIndex true) position).

(** Along [slides] the distance never grows, starting from [m]: the scan of
    [toIndex] takes every one of them. *)
Fixpoint improving (position m : JS.num) (slides : list Z) : Prop :=
  match slides with
  | [] => True
  | s :: rest =>
      JS.le (distance position s) m = true
      /\ improving position (distance position s) rest
  end.

(** Uniform slides of size [w] over the registry: every slide has the same
    size, and the cumulative size grows by [w] per index. *)
Definition uniform (w : Q) : Prop :=
  0 < w
  /\ (forall j k b, In j (Slides C) -> In k (Slides C) ->
        slideSize (Layout C) j b == slideSize (Layout C) k b)
  /\ (forall j k, In j (Slides C) -> In k (Slides C) ->
        totalSize (Layout C) (k - 1) - totalSize (Layout C) (j - 1)
        == w * inject_Z (k - j)).


(** The pair [translate] writes for a destination. *)
Definition written (destination : JS.num) : JS.num * JS.num :=
  match resolveX (Direction C) with
  | AxisX => (destination, JS.Fin 0)
  | AxisY => (JS.Fin 0, destination)
  end.

End Values.

(** ** The rest of the revised orchestrator *)

(** [a >= b] on numbers. *)
Definition ge_num (a b : JS.num) : bool := JS.le b a.

(** What [canShift] measures besides the position: the scroll size of the
    list and the size of the track along the resolved axis. *)
Record Extent : Type := {
  listScroll : Q;
  trackSize : Q
}.

(** The world with another document, as the browser leaves it between a call
    and the completion of the transition. *)
Definition with_dom (w : World) (d : Dom) : World :=
  {| waiting := waiting w; state := state w; dom := d; trace := trace w |}.

Module RevisedOrchestrator.
Section Move.

Variable C : Components.
Variable options : Options.

(** [canShift( backwards )] *)
Definition canShift (x : Extent) (w : World) (backwards : bool) : bool :=
  let shifted := orient C (Revised.shift C options (getPosition C (dom w)) backwards) in
  if backwards
  then ge_num shifted (JS.Fin 0)
  else JS.le shifted (JS.sub (JS.Fin (listScroll x)) (JS.Fin (trackSize x))).

(** [move( dest, index, prev, callback )] up to the call of the transition
    driver. The completion callback reads [index], [prev], [dest] and
    [callback] only; its closure carries the position read on entry and no
    looping flag. *)
Definition move (x : Extent) (w : World) (dest index prev : Z)
           (callback : option Callback) : World :=
  let position := getPosition C (dom w) in
  let w :=
    if negb (dest =? index)%Z && canShift x w (index <? dest)%Z
    then
      let w := Revised.cancel C options w in
      Revised.translate C options w
        (Revised.shift C options position (index <? dest)%Z) (Some true)
    else w in
  let w := set w MOVING in
  let w := emit w (EVENT_MOVE index prev dest) in
  perform w (TransitionStart index
               {| cl_dest := dest; cl_index := index; cl_prev := prev;
                  cl_position := position; cl_looping := false;
                  cl_callback := callback |}).

(** The completion callback that [move] hands to the transition driver. *)
Definition move_done (w : World) (k : MoveClosure) : World :=
  let w := set w IDLE in
  let w := emit w (EVENT_MOVED (cl_index k) (cl_prev k) (cl_dest k)) in
  match cl_callback k with
  | Some f => perform w (Invoke f)
  | None => w
  end.

End Move.
End RevisedOrchestrator.

(** ** Further predicates used in the statements *)

(** Slide [a] is not after slide [b] in the oriented order of the trimmed
    positions. *)
Definition not_after (C : Components) (options : Options) (a b : Z) : Prop :=
  JS.le (orient C (toPosition C options a true))
        (orient C (toPosition C options b true)) = true.

(** The rational that [toPosition( index, true )] returns. *)
Definition trimmed_value (C : Components) (options : Options) (index : Z) : Q :=
  match toPosition C options index true with
  | JS.Fin q => q
  | _ => 0
  end.

(** ** Values of the position engine on finite numbers *)

Section PositionFacts.

Variable C : Components.
Variable options : Options.

Lemma orient_Fin (q : Q) : orient C (JS.Fin q) = JS.Fin (q * orient_factor C).
Proof. unfold orient, orient_factor. destruct (reversed (Direction C)); reflexivity. Qed.

Lemma orient_factor_cases : orient_factor C = 1 \/ orient_factor C = -1.
Proof. unfold orient_factor. destruct (reversed (Direction C)); auto. Qed.

Lemma offset_Fin (index : Z) :
  exists q, offset C options index = JS.Fin q /\ q == offset_value C options index.
Proof.
  unfold offset, offset_value. destruct (focus options) as [| | f]; simpl.
  - exists 0. split; reflexivity.
  - eexists. split; [reflexivity | reflexivity].
  - unfold JS.or_else, JS.truthy.
    destruct (Qeq_bool (f * slideSize (Layout C) index false) 0) eqn:E; simpl.
    + exists 0. split; [reflexivity |]. apply Qeq_bool_eq in E. now rewrite E.
    + eexists. split; reflexivity.
Qed.

Lemma toPosition_raw_Fin (index : Z) :
  exists q, toPosition C options index false = JS.Fin q
            /\ q == raw_value C options index.
Proof.
  unfold toPosition, raw_value.
  destruct (offset_Fin index) as (f & -> & Hf). simpl JS.sub.
  rewrite orient_Fin. eexists. split; [reflexivity |].
  rewrite Hf. reflexivity.
Qed.

Lemma trim_Fin (r : Q) :
  trim C options (JS.Fin r) =
  if trimSpace_truthy options && is_type options SLIDE
  then JS.Fin (Qmin (Qmax (Qmin 0 (trim_bound C)) r) (Qmax 0 (trim_bound C)))
  else JS.Fin r.
Proof.
  unfold trim, trim_bound.
  destruct (trimSpace_truthy options && is_type options SLIDE); [| reflexivity].
  simpl JS.sub. rewrite orient_Fin. reflexivity.
Qed.

Lemma toPosition_Fin (index : Z) (trimming : bool) :
  exists q, toPosition C options index trimming = JS.Fin q.
Proof.
  destruct (toPosition_raw_Fin index) as (r & Hr & _).
  destruct trimming; [| eauto].
  unfold toPosition in *. rewrite Hr, trim_Fin.
  destruct (trimSpace_truthy options && is_type options SLIDE); eauto.
Qed.

Lemma getLimit_Fin (max : bool) : exists q, getLimit C options max = JS.Fin q.
Proof. unfold getLimit. apply toPosition_Fin. Qed.

Lemma getPosition_Fin (d : Dom) : exists q, getPosition C d = JS.Fin q.
Proof. unfold getPosition. rewrite orient_Fin. simpl. eauto. Qed.

Lemma clamp_between (lo hi r : Q) :
  lo <= hi ->
  lo <= Qmin (Qmax lo r) hi <= hi
  /\ (lo <= r <= hi -> Qmin (Qmax lo r) hi == r)
  /\ (r < lo -> Qmin (Qmax lo r) hi == lo)
  /\ (hi < r -> Qmin (Qmax lo r) hi == hi).
Proof.
  intros Hb.
  destruct (Q.max_spec lo r) as [[H1 E1] | [H1 E1]];
    destruct (Q.min_spec (Qmax lo r) hi) as [[H2 E2] | [H2 E2]];
    rewrite E2; rewrite ?E1 in *; repeat split; intros; lra.
Qed.

Lemma lt_irrefl (a : JS.num) : JS.lt a a = false.
Proof.
  destruct a as [| | | q]; simpl; try reflexivity.
  now rewrite (proj1 (Qeq_alt q q) (Qeq_refl q)).
Qed.

Lemma lt_Fin (x y : Q) : JS.lt (JS.Fin x) (JS.Fin y) = true <-> x < y.
Proof.
  simpl. rewrite Qlt_alt. destruct (x ?= y); split; congruence.
Qed.

End PositionFacts.

(** ** Trimming and limits *)

(** C7: [toPosition( index, true )] is the raw position
    [orient( totalSize( index - 1 ) - offset( index ) )] clamped into the
    interval between [0] and [orient( sliderSize() - listSize() )] exactly when
    [options.trimSpace] is truthy and the slider is of type [SLIDE]; otherwise
    it is the raw position unchanged. *)
Theorem toPosition_trimming (C : Components) (options : Options) (index : Z) :
  let raw :=
    orient C (JS.sub (JS.Fin (totalSize (Layout C) (index - 1))) (offset C options index)) in
  let bound :=
    orient C (JS.sub (JS.Fin (sliderSize (Layout C))) (JS.Fin (listSize (Layout C)))) in
  toPosition C options index false = raw
  /\ if trimSpace_truthy options && is_type options SLIDE
     then exists r b t,
            raw = JS.Fin r /\ bound = JS.Fin b
            /\ toPosition C options index true = JS.Fin t
            /\ Qmin 0 b <= t <= Qmax 0 b
            /\ (Qmin 0 b <= r <= Qmax 0 b -> t == r)
            /\ (r < Qmin 0 b -> t == Qmin 0 b)
            /\ (Qmax 0 b < r -> t == Qmax 0 b)
     else toPosition C options index true = raw.
Proof.
  intros raw bound. split; [reflexivity |].
  destruct (toPosition_raw_Fin C options index) as (r & Hr & _).
  assert (Hraw : raw = JS.Fin r) by exact Hr.
  assert (Ht := trim_Fin C options r).
  unfold toPosition. fold raw. rewrite Hraw.
  destruct (trimSpace_truthy options && is_type options SLIDE) eqn:E.
  - exists r, (trim_bound C), (Qmin (Qmax (Qmin 0 (trim_bound C)) r) (Qmax 0 (trim_bound C))).
    split; [reflexivity |]. split.
    { unfold bound, trim_bound. simpl JS.sub. apply orient_Fin. }
    split; [exact Ht |].
    assert (Hb : Qmin 0 (trim_bound C) <= Qmax 0 (trim_bound C)).
    { eapply Qle_trans; [apply Q.le_min_l | apply Q.le_max_l]. }
    destruct (clamp_between _ _ r Hb) as (H1 & H2 & H3 & H4). auto.
  - exact Ht.
Qed.

(** C6: the max limit itself does not exceed the max limit, and a position
    beyond it by any positive [eps] in the oriented direction does. *)
Theorem exceededLimit_boundary (C : Components) (options : Options) (d : Dom) :
  exceededLimit C options d (Some true) (Some (getLimit C options true)) = false
  /\ forall eps : Q, 0 < eps ->
       exceededLimit C options d (Some true)
         (Some (JS.add (getLimit C options true) (orient C (JS.Fin eps)))) = true.
Proof.
  unfold exceededLimit. simpl. unfold JS.gt. split.
  - apply lt_irrefl.
  - intros eps Heps. destruct (getLimit_Fin C options true) as [L ->].
    rewrite !orient_Fin. simpl JS.add. rewrite orient_Fin.
    apply lt_Fin. unfold orient_factor. destruct (reversed (Direction C)); lra.
Qed.

Lemma exceededLimit_boundary_witness :
  0 < 1 # 2
  /\ exceededLimit (five_slides true 300 4) (plain_options SLIDE TrimOff) (dom_at 0)
       (Some true)
       (Some (JS.add (getLimit (five_slides true 300 4) (plain_options SLIDE TrimOff) true)
                     (orient (five_slides true 300 4) (JS.Fin (1 # 2))))) = true.
Proof.
  split; [reflexivity |].
  apply (proj2 (exceededLimit_boundary (five_slides true 300 4)
                  (plain_options SLIDE TrimOff) (dom_at 0))).
  reflexivity.
Defined.

(** C9 as the code has it: with five slides of width [100], no gap, no trim,
    alignment [0] and [getEnd() = 4], [toPosition( 0 )] is [0], and
    [toPosition( 4 )] and [getLimit( true )] are [orient( 400 )], that is
    [400] when the orientation leaves values unchanged. *)
Theorem scenario_five_slides (C : Components) (options : Options) :
  focus options = FocusNumber 0 ->
  trimSpace options = TrimOff ->
  totalSize (Layout C) (-1) == 0 ->
  totalSize (Layout C) 3 == 400 ->
  getEnd C = 4%Z ->
  toPosition C options 0 false =~= JS.Fin 0
  /\ toPosition C options 4 false =~= orient C (JS.Fin 400)
  /\ getLimit C options true =~= orient C (JS.Fin 400)
  /\ (reversed (Direction C) = false ->
      toPosition C options 4 false =~= JS.Fin 400
      /\ getLimit C options true =~= JS.Fin 400).
Proof.
  intros Hf Ht H0 H3 He.
  assert (P0 : toPosition C options 0 false =~= JS.Fin 0).
  { destruct (toPosition_raw_Fin C options 0) as (q & -> & Hq). simpl.
    rewrite Hq. unfold raw_value, offset_value. rewrite Hf. simpl (0 - 1)%Z.
    rewrite H0. ring. }
  assert (P4 : toPosition C options 4 false =~= orient C (JS.Fin 400)).
  { destruct (toPosition_raw_Fin C options 4) as (q & -> & Hq).
    rewrite orient_Fin. simpl.
    rewrite Hq. unfold raw_value, offset_value. rewrite Hf. simpl (4 - 1)%Z.
    rewrite H3. ring. }
  assert (PL : getLimit C options true = toPosition C options 4 false).
  { unfold getLimit, trimSpace_truthy. now rewrite He, Ht. }
  rewrite PL. repeat split; auto;
    rewrite orient_Fin in P4; unfold orient_factor in P4; rewrite H in P4;
    destruct (toPosition C options 4 false); simpl in *; try contradiction;
    rewrite P4; ring.
Qed.

Lemma scenario_five_slides_witness :
  let C := five_slides false 300 4 in
  let options := plain_options SLIDE TrimOff in
  toPosition C options 0 false =~= JS.Fin 0
  /\ toPosition C options 4 false =~= orient C (JS.Fin 400)
  /\ getLimit C options true =~= orient C (JS.Fin 400)
  /\ (reversed (Direction C) = false ->
      toPosition C options 4 false =~= JS.Fin 400
      /\ getLimit C options true =~= JS.Fin 400).
Proof.
  intros C options.
  apply (scenario_five_slides C options); reflexivity.
Defined.

(** C9 as stated fails when the orientation negates: [toPosition( 4 )] and
    [getLimit( true )] are then [-400]. *)
Lemma scenario_five_slides_negated :
  let C := five_slides true 300 4 in
  let options := plain_options SLIDE TrimOff in
  toPosition C options 4 false = JS.Fin (-400)
  /\ getLimit C options true = JS.Fin (-400)
  /\ ~ (toPosition C options 4 false =~= JS.Fin 400)
  /\ ~ (getLimit C options true =~= JS.Fin 400).
Proof.
  repeat split; try (intro H; vm_compute in H; discriminate).
Qed.

(** ** The loop engine at rest *)

Lemma same_sub_not_lt_gt (C : Components) (p g : JS.num) :
  p =~= g ->
  JS.lt (orient C (JS.sub p g)) (JS.Fin 0) = false
  /\ JS.gt (orient C (JS.sub p g)) (JS.Fin 0) = false.
Proof.
  destruct p as [| | | x], g as [| | | y]; intros H; simpl in H; try contradiction;
    try (split; reflexivity).
  unfold JS.gt. simpl JS.sub. rewrite orient_Fin.
  assert (E : (x + - y) * orient_factor C == 0) by (rewrite H; ring).
  simpl. rewrite (proj1 (Qeq_alt _ _) E).
  assert (E' : 0 == (x + - y) * orient_factor C) by (symmetry; exact E).
  rewrite (proj1 (Qeq_alt _ _) E'). split; reflexivity.
Qed.

(** C10: a position equal to the current one is returned unchanged by [loop],
    in both revisions, whatever the mode, the limits and the waiting flag. *)
Theorem loop_at_current_position (C : Components) (options : Options)
        (w : World) (p : JS.num) :
  p =~= getPosition C (dom w) ->
  Earlier.loop C options w p = p /\ Revised.loop C options w p = p.
Proof.
  intros H. destruct (same_sub_not_lt_gt C p _ H) as [Hlt Hgt].
  unfold Earlier.loop, Revised.loop. rewrite Hlt, Hgt, !andb_false_r. simpl.
  split.
  - destruct (negb (waiting w) && is_type options LOOP); reflexivity.
  - destruct (is_type options LOOP); reflexivity.
Qed.

Lemma loop_at_current_position_witness :
  let C := five_slides true 300 4 in
  let options := plain_options LOOP TrimOff in
  JS.Fin (-450) =~= getPosition C (dom (world_at (-450)))
  /\ exceededLimit C options (dom (world_at (-450))) (Some true) (Some (JS.Fin (-450))) = true
  /\ Earlier.loop C options (world_at (-450)) (JS.Fin (-450)) = JS.Fin (-450)
  /\ Revised.loop C options (world_at (-450)) (JS.Fin (-450)) = JS.Fin (-450).
Proof.
  intros C options. split; [reflexivity |]. split; [reflexivity |].
  apply (loop_at_current_position C options (world_at (-450)) (JS.Fin (-450))).
  reflexivity.
Defined.

(** ** The orchestrator *)

(** C4 as the code has it: in the earlier revision [move] does nothing when
    [isBusy()] holds, that is when the waiting flag is set: the flag, the
    state, the document and the trace of notifications and driver calls are
    what they were. *)
Theorem move_while_busy (C : Components) (options : Options) (w : World)
        (dest index prev : Z) (callback : option Callback) :
  Earlier.isBusy w = true ->
  Earlier.move C options w dest index prev callback = w.
Proof.
  intros H. unfold Earlier.move. now rewrite H.
Qed.

Lemma move_while_busy_witness :
  let C := five_slides true 300 4 in
  let options := plain_options SLIDE TrimOff in
  let w := Earlier.move C options (world_at 0) 1 1 0 None in
  state w = MOVING /\ Earlier.isBusy w = true
  /\ Earlier.move C options w 2 2 1 None = w.
Proof.
  intros C options w. split; [reflexivity |]. split; [reflexivity |].
  apply (move_while_busy C options w 2 2 1 None). reflexivity.
Defined.

(** C4 as stated fails: after a move that does not loop, with
    [waitForTransition] off, the state is [MOVING] and the waiting flag is
    not set; a second [move] then notifies and starts the driver again. *)
Lemma move_while_moving_not_busy :
  let C := five_slides true 300 4 in
  let w := Earlier.move C free_options (world_at 0) 1 1 0 None in
  let w' := Earlier.move C free_options w 2 2 1 None in
  state w = MOVING
  /\ Earlier.isBusy w = false
  /\ w' <> w
  /\ exists k, trace w' = trace w ++ [Emit (EVENT_MOVE 2 1 2); TransitionStart 2 k].
Proof.
  repeat split; try discriminate.
  eexists. reflexivity.
Qed.

(** C8: in the revised revision, for a slider that is not of type [FADE],
    [translate] writes the position itself when [preventLoop] is given and
    [loop( position )] otherwise, and notifies [EVENT_SHIFTED] exactly when
    what it wrote differs from the position. *)
Theorem translate_destination (C : Components) (options : Options) (w : World)
        (p : Q) (preventLoop : option bool) :
  is_type options FADE = false ->
  let destination :=
    if given preventLoop then JS.Fin p else Revised.loop C options w (JS.Fin p) in
  let w' := Revised.translate C options w (JS.Fin p) preventLoop in
  transform (dom w') = Some (written C destination)
  /\ (destination =~= JS.Fin p -> trace w' = trace w)
  /\ (~ destination =~= JS.Fin p -> trace w' = trace w ++ [Emit EVENT_SHIFTED])
  /\ (trace w' = trace w ++ [Emit EVENT_SHIFTED] <-> ~ destination =~= JS.Fin p).
Proof.
  intros HF destination w'. unfold w', Revised.translate. rewrite HF. simpl negb.
  fold destination.
  assert (Hneq : JS.strict_neq (JS.Fin p) destination = true <-> ~ destination =~= JS.Fin p).
  { unfold JS.strict_neq. destruct destination as [| | | q]; simpl; try tauto.
    rewrite negb_true_iff. split.
    - intros E H. symmetry in H. apply Qeq_bool_iff in H. congruence.
    - intros H. destruct (Qeq_bool p q) eqn:E; [| reflexivity].
      apply Qeq_bool_iff in E. elim H. symmetry. exact E. }
  assert (Hw : transform (dom (write_transform C w destination)) = Some (written C destination)).
  { unfold write_transform, written. simpl. destruct (resolveX (Direction C)); reflexivity. }
  destruct (JS.strict_neq (JS.Fin p) destination) eqn:E.
  - assert (N : ~ destination =~= JS.Fin p) by (apply Hneq; reflexivity).
    repeat split; auto; try (intros; contradiction).
  - assert (N : ~ ~ destination =~= JS.Fin p).
    { intros H. apply Hneq in H. discriminate. }
    repeat split; auto; try (intros; contradiction).
    intros H. exfalso. simpl in H.
    apply (f_equal (@length Effect)) in H. rewrite length_app in H. simpl in H. lia.
Qed.

Lemma translate_destination_witness :
  let C := five_slides true 300 4 in
  let options := plain_options LOOP TrimOff in
  let w := world_at (-380) in
  let w' := Revised.translate C options w (JS.Fin (-420)) None in
  is_type options FADE = false
  /\ Revised.loop C options w (JS.Fin (-420)) = JS.Fin 80
  /\ transform (dom w') = Some (written C (Revised.loop C options w (JS.Fin (-420))))
  /\ trace w' = trace w ++ [Emit EVENT_SHIFTED].
Proof.
  intros C options w w'. split; [reflexivity |]. split; [reflexivity |].
  destruct (translate_destination C options w (-420) None) as (H1 & _ & H3 & _);
    [reflexivity |].
  split; [exact H1 |]. apply H3. intros H. vm_compute in H. discriminate.
Defined.

(** ** The wrap *)

Section ShiftFacts.

Variable C : Components.
Variable options : Options.

Let size : Q := sliderSize (Layout C).

Hypothesis size_positive : 0 < size.

Lemma size_compare : (size ?= 0) = Gt.
Proof. apply Qgt_alt. exact size_positive. Qed.

Lemma ceiling_quotient_nonneg (e : Q) : (0 <= Qceiling (Qabs e / size))%Z.
Proof.
  assert (H : 0 <= Qabs e / size).
  { apply Qle_shift_div_l; [exact size_positive |].
    rewrite Qmult_0_l. apply Qabs_nonneg. }
  assert (H' := Qle_ceiling (Qabs e / size)).
  rewrite Zle_Qle. simpl inject_Z. eapply Qle_trans; eassumption.
Qed.

(** The earlier [shift] moves a finite position by a whole number of cycles. *)
Lemma earlier_shift_Fin (p : Q) (backwards : bool) :
  exists (k : Z) (q : Q),
    Earlier.shift C options (JS.Fin p) backwards = JS.Fin q
    /\ q == p + inject_Z k * size.
Proof.
  destruct (getLimit_Fin C options backwards) as [L HL].
  unfold Earlier.shift. rewrite HL. fold size. cbn [JS.sub JS.add JS.neg JS.abs].
  unfold JS.div. rewrite size_compare. cbn [JS.ceil].
  set (K := Qceiling (Qabs (p + - L) / size)).
  unfold sign. destruct (p + - L ?= 0); cbn [JS.mul JS.sub JS.add JS.neg].
  - exists 0%Z. eexists. split; [reflexivity |]. ring.
  - exists K. eexists. split; [reflexivity |]. ring.
  - exists (- K)%Z. eexists. split; [reflexivity |]. rewrite inject_Z_opp. ring.
Qed.

(** The revised [shift] of a finite position, with the number of cycles the
    specification gives. *)
Lemma revised_shift_Fin (p L : Q) (backwards : bool) :
  getLimit C options backwards = JS.Fin L ->
  exists q : Q,
    Revised.shift C options (JS.Fin p) backwards = JS.Fin q
    /\ q == p - size * inject_Z (Z.max 1 (Qceiling (Qabs (p - L) / size)))
                * orient_factor C * (if backwards then 1 else -1).
Proof.
  intros HL. unfold Revised.shift. rewrite HL. fold size.
  cbn [JS.sub JS.add JS.neg JS.abs].
  unfold JS.div. rewrite size_compare. cbn [JS.ceil].
  assert (HK := ceiling_quotient_nonneg (p - L)).
  unfold Qminus in *.
  set (K := Qceiling (Qabs (p + - L) / size)) in *. clearbody K.
  unfold JS.or_else, JS.truthy.
  destruct (Qeq_bool (inject_Z K) 0) eqn:E; cbn [negb].
  - apply Qeq_bool_eq in E.
    assert (K0 : K = 0%Z) by (unfold Qeq in E; simpl in E; lia). subst K.
    change (Z.max 1 0) with 1%Z.
    cbn [JS.mul]. rewrite orient_Fin. cbn [JS.mul JS.sub JS.add JS.neg].
    eexists. split; [reflexivity |]. ring.
  - assert (K <> 0)%Z by (intros ->; discriminate).
    replace (Z.max 1 K) with K by lia.
    cbn [JS.mul]. rewrite orient_Fin. cbn [JS.mul JS.sub JS.add JS.neg].
    eexists. split; [reflexivity |]. ring.
Qed.

Lemma revised_shift_cycles (p : Q) (backwards : bool) :
  exists (k : Z) (q : Q),
    Revised.shift C options (JS.Fin p) backwards = JS.Fin q
    /\ q == p + inject_Z k * size.
Proof.
  destruct (getLimit_Fin C options backwards) as [L HL].
  destruct (revised_shift_Fin p L backwards HL) as (q & Hq & E).
  set (K := Z.max 1 (Qceiling (Qabs (p - L) / size))) in *.
  destruct (orient_factor_cases C) as [F | F]; rewrite F in E; destruct backwards.
  - exists (- K)%Z, q. split; [exact Hq |]. rewrite E, inject_Z_opp. ring.
  - exists K, q. split; [exact Hq |]. rewrite E. ring.
  - exists K, q. split; [exact Hq |]. rewrite E. ring.
  - exists (- K)%Z, q. split; [exact Hq |]. rewrite E, inject_Z_opp. ring.
Qed.

End ShiftFacts.

(** C3: with a positive cycle length, shifting backwards and then forwards
    returns to the position up to a whole number of cycles, in both
    revisions. *)
Theorem shift_round_trip (C : Components) (options : Options) (p : Q) :
  0 < sliderSize (Layout C) ->
  (exists k : Z,
      Earlier.shift C options (Earlier.shift C options (JS.Fin p) true) false
      =~= JS.Fin (p + inject_Z k * sliderSize (Layout C)))
  /\ (exists k : Z,
      Revised.shift C options (Revised.shift C options (JS.Fin p) true) false
      =~= JS.Fin (p + inject_Z k * sliderSize (Layout C))).
Proof.
  intros Hs. split.
  - destruct (earlier_shift_Fin C options Hs p true) as (k1 & q1 & -> & E1).
    destruct (earlier_shift_Fin C options Hs q1 false) as (k2 & q2 & -> & E2).
    exists (k1 + k2)%Z. simpl. rewrite E2, E1, inject_Z_plus. ring.
  - destruct (revised_shift_cycles C options Hs p true) as (k1 & q1 & -> & E1).
    destruct (revised_shift_cycles C options Hs q1 false) as (k2 & q2 & -> & E2).
    exists (k1 + k2)%Z. simpl. rewrite E2, E1, inject_Z_plus. ring.
Qed.

Lemma shift_round_trip_witness :
  let C := five_slides true 300 4 in
  let options := plain_options LOOP TrimOff in
  0 < sliderSize (Layout C)
  /\ Revised.shift C options (Revised.shift C options (JS.Fin (-420)) true) false
     =~= JS.Fin (-420)
  /\ (exists k : Z,
      Earlier.shift C options (Earlier.shift C options (JS.Fin (-420)) true) false
      =~= JS.Fin (-420 + inject_Z k * sliderSize (Layout C)))
  /\ (exists k : Z,
      Revised.shift C options (Revised.shift C options (JS.Fin (-420)) true) false
      =~= JS.Fin (-420 + inject_Z k * sliderSize (Layout C))).
Proof.
  intros C options. split; [reflexivity |]. split; [reflexivity |].
  apply (shift_round_trip C options (-420)). reflexivity.
Defined.

(** C5: with a positive cycle length the revised [shift] subtracts
    [orient( size * max( 1, ceil( |excess| / size ) ) )], signed by the
    direction, where [excess = position - getLimit( backwards )]: the position
    moves by at least one cycle and is never left where it was. *)
Theorem revised_shift_full_cycle (C : Components) (options : Options)
        (p : Q) (backwards : bool) :
  0 < sliderSize (Layout C) ->
  exists L q : Q,
    getLimit C options backwards = JS.Fin L
    /\ Revised.shift C options (JS.Fin p) backwards = JS.Fin q
    /\ (let size := sliderSize (Layout C) in
        let excess := p - L in
        let cycles := Z.max 1 (Qceiling (Qabs excess / size)) in
        JS.Fin q =~=
        JS.sub (JS.Fin p)
               (JS.mul (orient C (JS.Fin (size * inject_Z cycles)))
                       (JS.Fin (if backwards then 1 else -1))))
    /\ sliderSize (Layout C) <= Qabs (q - p)
    /\ (JS.Fin q =~= JS.Fin p -> False).
Proof.
  intros Hs.
  destruct (getLimit_Fin C options backwards) as [L HL].
  destruct (revised_shift_Fin C options Hs p L backwards HL) as (q & Hq & E).
  exists L, q. split; [exact HL |]. split; [exact Hq |]. cbv zeta.
  set (K := Z.max 1 (Qceiling (Qabs (p - L) / sliderSize (Layout C)))) in *.
  assert (HK : 1 <= inject_Z K).
  { change 1 with (inject_Z 1). rewrite <- Zle_Qle. lia. }
  clearbody K.
  assert (Hmove : sliderSize (Layout C) <= Qabs (q - p)).
  { assert (HsK : sliderSize (Layout C) <= sliderSize (Layout C) * inject_Z K) by nra.
    destruct (orient_factor_cases C) as [F | F]; rewrite F in E;
      destruct backwards; apply Qabs_case; intros Hx; lra. }
  split.
  - rewrite orient_Fin. cbn [JS.mul JS.sub JS.add JS.neg JS.same].
    rewrite E. ring.
  - split; [exact Hmove |].
    cbn [JS.same]. intros Heq. rewrite Heq in Hmove.
    setoid_replace (p - p) with 0 in Hmove by ring.
    simpl in Hmove. lra.
Qed.

Lemma revised_shift_full_cycle_witness :
  let C := five_slides true 300 4 in
  let options := plain_options LOOP TrimOff in
  0 < sliderSize (Layout C)
  /\ getLimit C options true =~= JS.Fin (-400)
  /\ Revised.shift C options (JS.Fin (-400)) true =~= JS.Fin 100
  /\ exists L q : Q,
      getLimit C options true = JS.Fin L
      /\ Revised.shift C options (JS.Fin (-400)) true = JS.Fin q
      /\ (let size := sliderSize (Layout C) in
          let excess := -400 - L in
          let cycles := Z.max 1 (Qceiling (Qabs excess / size)) in
          JS.Fin q =~=
          JS.sub (JS.Fin (-400))
                 (JS.mul (orient C (JS.Fin (size * inject_Z cycles)))
                         (JS.Fin 1)))
      /\ sliderSize (Layout C) <= Qabs (q - -400)
      /\ (JS.Fin q =~= JS.Fin (-400) -> False).
Proof.
  intros C options. split; [reflexivity |].
  split; [reflexivity |]. split; [reflexivity |].
  apply (revised_shift_full_cycle C options (-400) true). reflexivity.
Defined.

(** ** The nearest-index scan *)

Lemma le_trans (a b c : JS.num) :
  JS.le a b = true -> JS.le b c = true -> JS.le a c = true.
Proof.
  destruct a as [| | | x], b as [| | | y], c as [| | | z]; simpl;
    try congruence.
  rewrite !Qle_bool_iff. apply Qle_trans.
Qed.

Lemma le_refl_of_le (a m : JS.num) : JS.le a m = true -> JS.le a a = true.
Proof.
  destruct a as [| | | x], m as [| | | y]; simpl; try congruence;
    intros _; apply Qle_bool_iff, Qle_refl.
Qed.

Lemma le_of_same (a b : JS.num) : a =~= b -> JS.le b b = true -> JS.le a b = true.
Proof.
  destruct a as [| | | x], b as [| | | y]; simpl; try tauto; try congruence.
  intros H _. apply Qle_bool_iff. rewrite H. apply Qle_refl.
Qed.

Section ScanFacts.

Variable C : Components.
Variable options : Options.
Variable p : JS.num.

Lemma toIndex_scan_improving (pre : list Z) (a : Z) :
  forall (rest : list Z) (index : Z) (m : JS.num),
    improving C options p m (pre ++ [a]) ->
    toIndex_scan C options p ((pre ++ [a]) ++ rest) index m
    = toIndex_scan C options p rest a (distance C options p a).
Proof.
  induction pre as [| x pre IH]; intros rest index m [H1 H2];
    cbn [app toIndex_scan]; unfold distance in H1; rewrite H1.
  - reflexivity.
  - apply IH. exact H2.
Qed.

(** The scan stops at a candidate that is followed by nothing or by a
    candidate strictly farther away. *)
Lemma toIndex_scan_stop (post : list Z) (b : Z) :
  (forall n, hd_error post = Some n ->
     JS.le (distance C options p n) (distance C options p b) = false) ->
  toIndex_scan C options p post b (distance C options p b) = b.
Proof.
  destruct post as [| n post]; intros H; cbn [toIndex_scan]; [reflexivity |].
  specialize (H n eq_refl). unfold distance in *. rewrite H. reflexivity.
Qed.

Lemma improving_bound (l : list Z) :
  forall m, improving C options p m l ->
            forall x, In x l -> JS.le (distance C options p x) m = true.
Proof.
  induction l as [| a l IH]; intros m H x Hx; [contradiction |].
  destruct H as [H1 H2]. destruct Hx as [-> | Hx]; [exact H1 |].
  eapply le_trans; [apply (IH _ H2 x Hx) | exact H1].
Qed.

Lemma improving_last_least (l : list Z) (a : Z) :
  forall m, improving C options p m (l ++ [a]) ->
            forall x, In x (l ++ [a]) ->
                      JS.le (distance C options p a) (distance C options p x) = true.
Proof.
  induction l as [| y l IH]; intros m H x Hx; simpl in *.
  - destruct Hx as [-> | []]. destruct H as [H _]. eapply le_refl_of_le; eauto.
  - destruct H as [H1 H2]. destruct Hx as [-> | Hx].
    + apply (improving_bound _ _ H2). apply in_or_app. right. left. reflexivity.
    + apply (IH _ H2 x Hx).
Qed.

End ScanFacts.

(** C2 as the code has it: [toIndex] takes the candidates in the order of the
    registry as long as the distance does not grow; when two candidates in a
    row are at the same distance, the least met so far, and the next one, if
    any, is strictly farther, the later of the two is returned. *)
Theorem toIndex_tie_takes_later (C : Components) (options : Options) (p : JS.num)
        (pre post : list Z) (a b : Z) :
  Slides C = pre ++ a :: b :: post ->
  improving C options p JS.Infinity (pre ++ [a]) ->
  distance C options p b =~= distance C options p a ->
  (forall n, hd_error post = Some n ->
     JS.le (distance C options p n) (distance C options p b) = false) ->
  toIndex C options p = b
  /\ forall x, In x (pre ++ [a; b]) ->
               JS.le (distance C options p b) (distance C options p x) = true.
Proof.
  intros HS Hpre Htie Hpost.
  assert (Ha : JS.le (distance C options p a) (distance C options p a) = true).
  { apply (improving_last_least C options p pre a _ Hpre). apply in_or_app.
    right. left. reflexivity. }
  assert (Hba : JS.le (distance C options p b) (distance C options p a) = true).
  { apply le_of_same; assumption. }
  split.
  - unfold toIndex. rewrite HS.
    change (pre ++ a :: b :: post) with (pre ++ [a] ++ b :: post).
    rewrite app_assoc, (toIndex_scan_improving C options p pre a _ _ _ Hpre).
    cbn [toIndex_scan].
    change (JS.abs (JS.sub (toPosition C options b true) p))
      with (distance C options p b).
    rewrite Hba. apply toIndex_scan_stop. exact Hpost.
  - intros x Hx.
    change (pre ++ [a; b]) with (pre ++ [a] ++ [b]) in Hx.
    rewrite app_assoc in Hx. apply in_app_or in Hx. destruct Hx as [Hx | [-> | []]].
    + eapply le_trans; [exact Hba |].
      apply (improving_last_least C options p pre a _ Hpre x Hx).
    + eapply le_refl_of_le; eauto.
Qed.

Lemma toIndex_tie_takes_later_witness :
  let C := five_slides true 300 4 in
  let options := plain_options SLIDE TrimOff in
  distance C options (JS.Fin (-150)) 1 =~= JS.Fin 50
  /\ distance C options (JS.Fin (-150)) 2 =~= JS.Fin 50
  /\ toIndex C options (JS.Fin (-150)) = 2%Z
  /\ forall x, In x ([0] ++ [1; 2])%Z ->
               JS.le (distance C options (JS.Fin (-150)) 2)
                     (distance C options (JS.Fin (-150)) x) = true.
Proof.
  intros C options. split; [reflexivity |]. split; [reflexivity |].
  apply (toIndex_tie_takes_later C options (JS.Fin (-150)) [0%Z] [3; 4]%Z 1%Z 2%Z).
  - reflexivity.
  - repeat split.
  - reflexivity.
  - intros n H. injection H as <-. reflexivity.
Defined.

(** C2 as stated fails: two slides are at the same, least, distance from the
    position and [toIndex] does not return the lower one. *)
Lemma toIndex_tie_not_lower :
  let C := five_slides true 300 4 in
  let options := plain_options SLIDE TrimOff in
  distance C options (JS.Fin (-150)) 1 =~= distance C options (JS.Fin (-150)) 2
  /\ (forall x, In x (Slides C) ->
        JS.le (distance C options (JS.Fin (-150)) 1)
              (distance C options (JS.Fin (-150)) x) = true)
  /\ toIndex C options (JS.Fin (-150)) = 2%Z
  /\ toIndex C options (JS.Fin (-150)) <> 1%Z.
Proof.
  intros C options. split; [reflexivity |]. split.
  - intros x Hx. simpl in Hx.
    repeat (destruct Hx as [<- | Hx]; [reflexivity |]). contradiction.
  - split; [reflexivity | discriminate].
Qed.

(** ** Ascending registries of uniform slides *)


Section UniformFacts.

Variable C : Components.
Variable options : Options.
Variable w : Q.

Hypothesis sizes : uniform C w.

Lemma uniform_offset (j k : Z) :
  In j (Slides C) -> In k (Slides C) ->
  offset_value C options j == offset_value C options k.
Proof.
  intros Hj Hk. destruct sizes as (_ & Hs & _). unfold offset_value.
  destruct (focus options); [reflexivity | |].
  - rewrite (Hs j k true Hj Hk). reflexivity.
  - rewrite (Hs j k false Hj Hk). reflexivity.
Qed.

Lemma uniform_raw (j k : Z) :
  In j (Slides C) -> In k (Slides C) ->
  raw_value C options k - raw_value C options j
  == w * inject_Z (k - j) * orient_factor C.
Proof.
  intros Hj Hk. destruct sizes as (_ & _ & Ht). unfold raw_value.
  rewrite <- (Ht j k Hj Hk), (uniform_offset j k Hj Hk). ring.
Qed.

End UniformFacts.

Lemma five_slides_uniform (rev : bool) (listW : Q) (e : Z) :
  uniform (five_slides rev listW e) 100.
Proof.
  split; [reflexivity |]. split.
  - intros j k b _ _. reflexivity.
  - intros j k Hj Hk. simpl in Hj, Hk.
    repeat (destruct Hj as [<- | Hj]; [| try contradiction]);
      repeat (destruct Hk as [<- | Hk]; [| try contradiction]); reflexivity.
Qed.

Lemma five_slides_sorted (rev : bool) (listW : Q) (e : Z) :
  StronglySorted Z.lt (Slides (five_slides rev listW e)).
Proof. simpl. repeat constructor; lia. Qed.

(** * Further properties of the code *)

(** ** What [toIndex] returns *)

Lemma toIndex_scan_member (C : Components) (options : Options) (p : JS.num)
      (l : list Z) :
  forall (index : Z) (m : JS.num),
    toIndex_scan C options p l index m = index
    \/ In (toIndex_scan C options p l index m) l.
Proof.
  induction l as [| a l IH]; intros index m; cbn [toIndex_scan]; [now left |].
  destruct (JS.le _ m); [| now left].
  right. destruct (IH a (JS.abs (JS.sub (toPosition C options a true) p))) as [-> | H].
  - now left.
  - now right.
Qed.

Lemma toPosition_trimmed_value (C : Components) (options : Options) (j : Z) :
  toPosition C options j true = JS.Fin (trimmed_value C options j).
Proof.
  unfold trimmed_value.
  destruct (toPosition_Fin C options j true) as [q ->]. reflexivity.
Qed.

Lemma distance_Fin (C : Components) (options : Options) (p : Q) (j : Z) :
  distance C options (JS.Fin p) j
  = JS.Fin (Qabs (trimmed_value C options j + - p)).
Proof. unfold distance. rewrite toPosition_trimmed_value. reflexivity. Qed.

(** X1: for a finite position and a registry that is not empty, [toIndex]
    returns the index of a slide of the registry. *)
Theorem toIndex_in_registry (C : Components) (options : Options) (p : Q) :
  Slides C <> [] ->
  In (toIndex C options (JS.Fin p)) (Slides C).
Proof.
  intros H. unfold toIndex. destruct (Slides C) as [| a l]; [congruence |].
  cbn [toIndex_scan].
  change (JS.abs (JS.sub (toPosition C options a true) (JS.Fin p)))
    with (distance C options (JS.Fin p) a).
  rewrite distance_Fin. cbn [JS.le JS.Infinity].
  destruct (toIndex_scan_member C options (JS.Fin p) l a
              (JS.Fin (Qabs (trimmed_value C options a + - p)))) as [-> | Hin].
  - now left.
  - now right.
Qed.

Lemma toIndex_in_registry_witness :
  Slides (five_slides true 300 4) <> []
  /\ In (toIndex (five_slides true 300 4) (plain_options SLIDE TrimOn) (JS.Fin (-1000)))
        (Slides (five_slides true 300 4)).
Proof.
  split; [discriminate |].
  apply (toIndex_in_registry (five_slides true 300 4) (plain_options SLIDE TrimOn) (-1000)).
  discriminate.
Defined.

(** X2: [toIndex] answers [0] when the registry is empty and when the
    position is [NaN], whether or not a slide has index [0]. *)
Theorem toIndex_default (C : Components) (options : Options) (p : JS.num) :
  Slides C = [] \/ p = JS.NaN ->
  toIndex C options p = 0%Z.
Proof.
  unfold toIndex. intros [-> | ->]; [reflexivity |].
  destruct (Slides C) as [| a l]; [reflexivity |]. cbn [toIndex_scan].
  destruct (toPosition_Fin C options a true) as [q ->]. reflexivity.
Qed.

Lemma toIndex_default_witness :
  ~ In 0%Z [3; 4]%Z
  /\ toIndex {| Layout := five_layout 300;
               Direction := {| reversed := true; resolveX := AxisX |};
               Slides := [3; 4]%Z; getEnd := 4 |}
            (plain_options SLIDE TrimOff) JS.NaN = 0%Z.
Proof.
  split; [simpl; intros [H | [H | []]]; discriminate |].
  apply toIndex_default. right. reflexivity.
Defined.

Lemma farther_for_good (f ta tb tx p : Q) :
  f = 1 \/ f = -1 ->
  ta * f <= tb * f ->
  tb * f <= tx * f ->
  ~ Qabs (tb + - p) <= Qabs (ta + - p) ->
  Qabs (ta + - p) <= Qabs (tx + - p).
Proof.
  intros Hf Hab Hbx Hn.
  revert Hn. apply (Qabs_case (tb + - p)); intros H1;
    apply (Qabs_case (ta + - p)); intros H2;
    apply (Qabs_case (tx + - p)); intros H3 Hn;
    destruct Hf as [-> | ->]; lra.
Qed.

(** From a slide on, in a registry whose trimmed positions are in oriented
    order, the scan ends on a slide that no slide left to scan beats. *)
Lemma toIndex_scan_closest (C : Components) (options : Options) (p : Q)
      (l : list Z) :
  forall index : Z,
    StronglySorted (not_after C options) (index :: l) ->
    let r := toIndex_scan C options (JS.Fin p) l index
               (distance C options (JS.Fin p) index) in
    JS.le (distance C options (JS.Fin p) r)
          (distance C options (JS.Fin p) index) = true
    /\ forall x, In x l ->
         JS.le (distance C options (JS.Fin p) r)
               (distance C options (JS.Fin p) x) = true.
Proof.
  induction l as [| a l IH]; intros index HS; cbn zeta; cbn [toIndex_scan].
  - split; [| intros x []]. rewrite distance_Fin. apply Qle_bool_iff, Qle_refl.
  - change (JS.abs (JS.sub (toPosition C options a true) (JS.Fin p)))
      with (distance C options (JS.Fin p) a).
    apply StronglySorted_inv in HS. destruct HS as [HS Hidx].
    destruct (JS.le (distance C options (JS.Fin p) a)
                    (distance C options (JS.Fin p) index)) eqn:E.
    + destruct (IH a HS) as [H1 H2]. cbn zeta in H1, H2. split.
      * eapply le_trans; [exact H1 | exact E].
      * intros x [<- | Hx]; [exact H1 | apply H2; exact Hx].
    + split; [rewrite distance_Fin; apply Qle_bool_iff, Qle_refl |].
      intros x Hx. rewrite !distance_Fin in *. cbn [JS.le] in *.
      apply Qle_bool_iff.
      assert (Hn : ~ Qabs (trimmed_value C options a + - p)
                     <= Qabs (trimmed_value C options index + - p)).
      { intros H. apply Qle_bool_iff in H. congruence. }
      apply (farther_for_good (orient_factor C) _ (trimmed_value C options a));
        [apply orient_factor_cases | | | exact Hn].
      * rewrite Forall_forall in Hidx. specialize (Hidx a (or_introl eq_refl)).
        unfold not_after in Hidx. rewrite !toPosition_trimmed_value, !orient_Fin in Hidx.
        apply Qle_bool_iff in Hidx. exact Hidx.
      * destruct Hx as [<- | Hx]; [apply Qle_refl |].
        apply StronglySorted_inv in HS. destruct HS as [_ Ha].
        rewrite Forall_forall in Ha. specialize (Ha x Hx).
        unfold not_after in Ha. rewrite !toPosition_trimmed_value, !orient_Fin in Ha.
        apply Qle_bool_iff in Ha. exact Ha.
Qed.

(** X3: when the trimmed positions of the registry are in oriented order,
    [toIndex] of a finite position returns a slide that is closest to it: no
    slide of the registry is strictly nearer. *)
Theorem toIndex_closest (C : Components) (options : Options) (p : Q) (x : Z) :
  StronglySorted (not_after C options) (Slides C) ->
  In x (Slides C) ->
  JS.le (distance C options (JS.Fin p) (toIndex C options (JS.Fin p)))
        (distance C options (JS.Fin p) x) = true.
Proof.
  intros HS Hx. unfold toIndex. destruct (Slides C) as [| a l]; [contradiction |].
  cbn [toIndex_scan].
  change (JS.abs (JS.sub (toPosition C options a true) (JS.Fin p)))
    with (distance C options (JS.Fin p) a).
  assert (E : JS.le (distance C options (JS.Fin p) a) JS.Infinity = true)
    by (rewrite distance_Fin; reflexivity).
  rewrite E. destruct (toIndex_scan_closest C options p l a HS) as [H1 H2].
  cbn zeta in H1, H2. destruct Hx as [<- | Hx]; [exact H1 | apply H2; exact Hx].
Qed.

Lemma toIndex_closest_witness :
  let C := five_slides true 300 4 in
  let options := plain_options SLIDE TrimOn in
  toIndex C options (JS.Fin (-230)) = 4%Z
  /\ JS.le (distance C options (JS.Fin (-230)) (toIndex C options (JS.Fin (-230))))
           (distance C options (JS.Fin (-230)) 2) = true.
Proof.
  intros C options. split; [reflexivity |].
  apply (toIndex_closest C options (-230) 2).
  - repeat (constructor; try reflexivity).
  - simpl. tauto.
Defined.

(** ** Trimming *)

Lemma clamp_idempotent (lo hi r : Q) :
  lo <= hi ->
  Qmin (Qmax lo (Qmin (Qmax lo r) hi)) hi == Qmin (Qmax lo r) hi.
Proof.
  intros H. destruct (clamp_between lo hi r H) as (B & _).
  destruct (clamp_between lo hi (Qmin (Qmax lo r) hi) H) as (_ & E & _).
  apply E. exact B.
Qed.

Lemma clamp_monotone (lo hi a b : Q) :
  a <= b -> Qmin (Qmax lo a) hi <= Qmin (Qmax lo b) hi.
Proof.
  intros H. apply Q.min_le_compat_r. apply Q.max_le_compat_l. exact H.
Qed.

Lemma trim_bounds_ordered (C : Components) :
  Qmin 0 (trim_bound C) <= Qmax 0 (trim_bound C).
Proof. eapply Qle_trans; [apply Q.le_min_l | apply Q.le_max_l]. Qed.

(** X4: [trim] is idempotent on finite positions: a trimmed position is left
    alone by a second trimming. *)
Theorem trim_idempotent (C : Components) (options : Options) (r : Q) :
  trim C options (trim C options (JS.Fin r)) =~= trim C options (JS.Fin r).
Proof.
  rewrite (trim_Fin C options r).
  destruct (trimSpace_truthy options && is_type options SLIDE) eqn:E.
  - rewrite trim_Fin, E. simpl. apply clamp_idempotent, trim_bounds_ordered.
  - rewrite trim_Fin, E. simpl. reflexivity.
Qed.

Lemma clamp_oriented (f lo hi a b : Q) :
  f = 1 \/ f = -1 ->
  a * f <= b * f ->
  Qmin (Qmax lo a) hi * f <= Qmin (Qmax lo b) hi * f.
Proof.
  intros [-> | ->] H.
  - assert (Hle : a <= b) by lra.
    assert (M := clamp_monotone lo hi _ _ Hle). lra.
  - assert (Hle : b <= a) by lra.
    assert (M := clamp_monotone lo hi _ _ Hle). lra.
Qed.

Lemma trim_keeps_order (C : Components) (options : Options) (rj rk tj tk : Q) :
  rj * orient_factor C <= rk * orient_factor C ->
  trim C options (JS.Fin rj) = JS.Fin tj ->
  trim C options (JS.Fin rk) = JS.Fin tk ->
  tj * orient_factor C <= tk * orient_factor C.
Proof.
  intros H. rewrite !trim_Fin.
  destruct (trimSpace_truthy options && is_type options SLIDE);
    intros [= <-] [= <-]; [| exact H].
  apply clamp_oriented; [apply orient_factor_cases | exact H].
Qed.

(** X5: trimming keeps the oriented order of positions: when the untrimmed
    position of slide [j] is not after that of slide [k], neither is the
    trimmed one; positions saturate at the edges and never cross. *)
Theorem trimming_keeps_order (C : Components) (options : Options) (j k : Z) :
  JS.le (orient C (toPosition C options j false))
        (orient C (toPosition C options k false)) = true ->
  not_after C options j k.
Proof.
  unfold not_after.
  destruct (toPosition_raw_Fin C options j) as (rj & Hj & _).
  destruct (toPosition_raw_Fin C options k) as (rk & Hk & _).
  intros H. rewrite Hj, Hk, !orient_Fin in H. apply Qle_bool_iff in H.
  destruct (toPosition_Fin C options j true) as [tj Htj].
  destruct (toPosition_Fin C options k true) as [tk Htk].
  rewrite Htj, Htk, !orient_Fin. apply Qle_bool_iff.
  unfold toPosition in *. rewrite Hj in Htj. rewrite Hk in Htk.
  exact (trim_keeps_order C options rj rk tj tk H Htj Htk).
Qed.

Lemma trimming_keeps_order_witness :
  let C := five_slides true 300 4 in
  let options := plain_options SLIDE TrimOn in
  toPosition C options 3 true =~= toPosition C options 4 true
  /\ not_after C options 3 4.
Proof.
  intros C options. split; [reflexivity |].
  apply (trimming_keeps_order C options 3 4). reflexivity.
Defined.

(** ** Limits *)

(** X6: when the min limit is not after the max limit in the oriented order,
    no position exceeds both; and testing without a side is testing the two
    sides. *)
Theorem exceededLimit_sides (C : Components) (options : Options) (d : Dom)
        (p : option JS.num) :
  JS.le (orient C (getLimit C options false))
        (orient C (getLimit C options true)) = true ->
  exceededLimit C options d (Some false) p
  && exceededLimit C options d (Some true) p = false
  /\ exceededLimit C options d None p
     = exceededLimit C options d (Some false) p
       || exceededLimit C options d (Some true) p.
Proof.
  intros H. unfold exceededLimit. cbn [negb andb orb].
  rewrite !orb_false_r. split; [| reflexivity].
  destruct (getLimit_Fin C options false) as [lo Hlo].
  destruct (getLimit_Fin C options true) as [hi Hhi].
  rewrite Hlo, Hhi, !orient_Fin in *. apply Qle_bool_iff in H.
  unfold JS.gt.
  destruct (orient C match p with Some q => q | None => getPosition C d end)
    as [| | | q]; try reflexivity.
  destruct (JS.lt (JS.Fin q) (JS.Fin (lo * orient_factor C))) eqn:E1; [| reflexivity].
  destruct (JS.lt (JS.Fin (hi * orient_factor C)) (JS.Fin q)) eqn:E2; [| reflexivity].
  apply lt_Fin in E1. apply lt_Fin in E2. lra.
Qed.

Lemma exceededLimit_sides_witness :
  let C := five_slides true 300 4 in
  let options := plain_options LOOP TrimOff in
  exceededLimit C options (dom_at 0) None (Some (JS.Fin 30)) = true
  /\ exceededLimit C options (dom_at 0) (Some false) (Some (JS.Fin 30))
     && exceededLimit C options (dom_at 0) (Some true) (Some (JS.Fin 30)) = false
  /\ exceededLimit C options (dom_at 0) None (Some (JS.Fin 30))
     = exceededLimit C options (dom_at 0) (Some false) (Some (JS.Fin 30))
       || exceededLimit C options (dom_at 0) (Some true) (Some (JS.Fin 30)).
Proof.
  intros C options. split; [reflexivity |].
  apply (exceededLimit_sides C options (dom_at 0) (Some (JS.Fin 30))). reflexivity.
Defined.

(** ** Where the wrap lands *)

Lemma ceiling_cycles (s a : Q) :
  0 < s ->
  a <= s * inject_Z (Qceiling (a / s)) /\ s * inject_Z (Qceiling (a / s)) < a + s.
Proof.
  intros Hs.
  assert (E : a == a / s * s) by (field; lra).
  assert (H1 := Qle_ceiling (a / s)). assert (H2 := Qceiling_lt (a / s)).
  unfold Z.sub in H2. rewrite inject_Z_plus, inject_Z_opp in H2.
  change (inject_Z 1) with 1 in H2.
  set (x := a / s) in *. set (K := inject_Z (Qceiling x)) in *.
  assert (M1 : x * s <= K * s) by (apply Qmult_le_compat_r; lra).
  assert (M2 : (K + - (1)) * s < x * s) by (apply Qmult_lt_compat_r; lra).
  split; lra.
Qed.

Section LandingFacts.

Variable C : Components.
Variable options : Options.

Let size : Q := sliderSize (Layout C).

Hypothesis size_positive : 0 < size.

(** The value of the earlier [shift] by the sign of the excess. *)
Lemma earlier_shift_value (p L : Q) (backwards : bool) :
  getLimit C options backwards = JS.Fin L ->
  exists q : Q,
    Earlier.shift C options (JS.Fin p) backwards = JS.Fin q
    /\ ((p - L == 0 /\ q == p)
        \/ (0 < p - L /\ q == p - size * inject_Z (Qceiling ((p - L) / size)))
        \/ (p - L < 0 /\ q == p + size * inject_Z (Qceiling ((L - p) / size)))).
Proof.
  intros HL. unfold Earlier.shift. rewrite HL. unfold size in *.
  cbn [JS.sub JS.add JS.neg JS.abs].
  unfold JS.div. rewrite (size_compare C size_positive). cbn [JS.ceil].
  unfold sign. unfold Qminus.
  destruct (Qcompare_spec (p + - L) 0) as [E | E | E];
    cbn [JS.mul JS.sub JS.add JS.neg]; eexists; (split; [reflexivity |]).
  - left. split; [exact E | ring].
  - right. right. split; [exact E |].
    assert (A : Qabs (p + - L) == L + - p) by (rewrite Qabs_neg by lra; ring).
    rewrite A. ring.
  - right. left. split; [exact E |].
    rewrite (Qabs_pos (p + - L)) by lra. ring.
Qed.

Lemma revised_shift_landing (p L : Q) (backwards : bool) :
  getLimit C options backwards = JS.Fin L ->
  0 <= (p - L) * orient_factor C * (if backwards then 1 else -1) ->
  exists q : Q,
    Revised.shift C options (JS.Fin p) backwards = JS.Fin q
    /\ - size <= (q - L) * orient_factor C * (if backwards then 1 else -1) <= 0.
Proof.
  intros HL He.
  destruct (revised_shift_Fin C options size_positive p L backwards HL) as (q & Hq & E).
  exists q. split; [exact Hq |]. unfold size in *.
  assert (HK := ceiling_quotient_nonneg C size_positive (p - L)).
  destruct (ceiling_cycles _ (Qabs (p - L)) size_positive) as [C1 C2].
  set (K := Qceiling (Qabs (p - L) / sliderSize (Layout C))) in *.
  set (sz := sliderSize (Layout C)) in *.
  assert (A : Qabs (p - L) == (p - L) * orient_factor C * (if backwards then 1 else -1)).
  { destruct (orient_factor_cases C) as [F | F]; rewrite F in *; destruct backwards;
      (rewrite Qabs_pos by lra; ring) || (rewrite Qabs_neg by lra; ring). }
  assert (F2 : orient_factor C * orient_factor C == 1)
    by (destruct (orient_factor_cases C) as [-> | ->]; reflexivity).
  assert (S2 : (if backwards then 1 else -1) * (if backwards then 1 else -1) == 1)
    by (destruct backwards; reflexivity).
  assert (D : (q - L) * orient_factor C * (if backwards then 1 else -1)
              == Qabs (p - L) - sz * inject_Z (Z.max 1 K)).
  { rewrite A, E.
    setoid_replace ((p - sz * inject_Z (Z.max 1 K) * orient_factor C
                       * (if backwards then 1 else -1) - L)
                    * orient_factor C * (if backwards then 1 else -1))
      with ((p - L) * orient_factor C * (if backwards then 1 else -1)
            - sz * inject_Z (Z.max 1 K)
              * (orient_factor C * orient_factor C)
              * ((if backwards then 1 else -1) * (if backwards then 1 else -1)))
      by ring.
    rewrite F2, S2. ring. }
  rewrite D. destruct (Z.eq_dec K 0) as [K0 | K0].
  - rewrite K0 in *. change (Z.max 1 0) with 1%Z. change (inject_Z 1) with 1.
    change (inject_Z 0) with 0 in C1. assert (P := Qabs_nonneg (p - L)). lra.
  - replace (Z.max 1 K) with K by lia. lra.
Qed.

End LandingFacts.

Lemma lt_le (a b : JS.num) : JS.lt a b = true -> JS.le a b = true.
Proof.
  destruct a as [| | | x], b as [| | | y]; simpl; try congruence.
  intros H. apply Qle_bool_iff, Qlt_le_weak. apply (lt_Fin x y). exact H.
Qed.

Lemma le_not_lt (a b : JS.num) : JS.le a b = true -> JS.lt b a = false.
Proof.
  destruct a as [| | | x], b as [| | | y]; simpl; try congruence.
  intros H. apply Qle_bool_iff in H.
  destruct (y ?= x) eqn:E; try reflexivity.
  apply Qlt_alt in E. lra.
Qed.

Lemma lt_asym (a b : JS.num) : JS.lt a b = true -> JS.lt b a = false.
Proof. intros H. apply le_not_lt, lt_le, H. Qed.

Lemma earlier_shift_landing (C : Components) (options : Options) (p L : Q)
      (backwards : bool) :
  0 < sliderSize (Layout C) ->
  getLimit C options backwards = JS.Fin L ->
  exists q : Q,
    Earlier.shift C options (JS.Fin p) backwards = JS.Fin q
    /\ Qabs (q + - L) < sliderSize (Layout C)
    /\ (L <= p -> q <= L)
    /\ (p <= L -> L <= q)
    /\ (p == L -> q == p).
Proof.
  intros Hs HL.
  destruct (earlier_shift_value C options Hs p L backwards HL) as (q & Hq & Hv).
  exists q. split; [exact Hq |].
  destruct Hv as [[E V] | [[E V] | [E V]]].
  - repeat split; intros; try lra. apply Qabs_case; intros; lra.
  - destruct (ceiling_cycles _ (p - L) Hs) as [C1 C2].
    repeat split; intros; try lra. apply Qabs_case; intros; lra.
  - destruct (ceiling_cycles _ (L - p) Hs) as [C1 C2].
    repeat split; intros; try lra. apply Qabs_case; intros; lra.
Qed.

(** X7: with a positive cycle length the earlier [shift] of a finite position
    lands less than one cycle from the limit, on the other side of it or on
    it; a position on the limit stays where it is. *)
Theorem earlier_shift_lands (C : Components) (options : Options) (p : Q)
        (backwards : bool) :
  0 < sliderSize (Layout C) ->
  let limit := getLimit C options backwards in
  let r := Earlier.shift C options (JS.Fin p) backwards in
  JS.lt (JS.abs (JS.sub r limit)) (JS.Fin (sliderSize (Layout C))) = true
  /\ (JS.le limit (JS.Fin p) = true -> JS.le r limit = true)
  /\ (JS.le (JS.Fin p) limit = true -> JS.le limit r = true)
  /\ (JS.Fin p =~= limit -> r =~= JS.Fin p).
Proof.
  intros Hs limit r. subst limit r.
  destruct (getLimit_Fin C options backwards) as [L HL].
  destruct (earlier_shift_landing C options p L backwards Hs HL)
    as (q & Hq & H1 & H2 & H3 & H4).
  rewrite Hq, HL. cbn [JS.sub JS.add JS.neg JS.abs JS.le JS.same].
  rewrite lt_Fin, !Qle_bool_iff. auto.
Qed.

Lemma earlier_shift_lands_witness :
  let C := five_slides true 300 4 in
  let options := plain_options LOOP TrimOff in
  0 < sliderSize (Layout C)
  /\ Earlier.shift C options (JS.Fin (-1430)) true =~= JS.Fin (-430 + 500)
  /\ JS.lt (JS.abs (JS.sub (Earlier.shift C options (JS.Fin (-1430)) true)
                           (getLimit C options true)))
           (JS.Fin (sliderSize (Layout C))) = true.
Proof.
  intros C options. split; [reflexivity |]. split; [reflexivity |].
  destruct (earlier_shift_lands C options (-1430) true) as [H _];
    [reflexivity | exact H].
Defined.

(** X8: with a positive cycle length the revised [shift] of a finite position
    that is on or beyond the limit it is shifted from, in the oriented order,
    lands on the inner side of that limit, at most one cycle from it. *)
Theorem revised_shift_lands (C : Components) (options : Options) (p : Q) :
  0 < sliderSize (Layout C) ->
  (JS.le (orient C (getLimit C options true)) (orient C (JS.Fin p)) = true ->
   let r := orient C (Revised.shift C options (JS.Fin p) true) in
   let limit := orient C (getLimit C options true) in
   JS.le r limit = true
   /\ JS.le (JS.sub limit (JS.Fin (sliderSize (Layout C)))) r = true)
  /\ (JS.le (orient C (JS.Fin p)) (orient C (getLimit C options false)) = true ->
      let r := orient C (Revised.shift C options (JS.Fin p) false) in
      let limit := orient C (getLimit C options false) in
      JS.le limit r = true
      /\ JS.le r (JS.add limit (JS.Fin (sliderSize (Layout C)))) = true).
Proof.
  intros Hs. split; intros H r limit; subst r limit.
  - destruct (getLimit_Fin C options true) as [L HL].
    rewrite HL, !orient_Fin in *. apply Qle_bool_iff in H.
    destruct (revised_shift_landing C options Hs p L true HL) as (q & -> & B); [lra |].
    rewrite orient_Fin. cbn [JS.sub JS.add JS.neg JS.le].
    rewrite !Qle_bool_iff. lra.
  - destruct (getLimit_Fin C options false) as [L HL].
    rewrite HL, !orient_Fin in *. apply Qle_bool_iff in H.
    destruct (revised_shift_landing C options Hs p L false HL) as (q & -> & B); [lra |].
    rewrite orient_Fin. cbn [JS.sub JS.add JS.neg JS.le].
    rewrite !Qle_bool_iff. lra.
Qed.

Lemma revised_shift_lands_witness :
  let C := five_slides true 300 4 in
  let options := plain_options LOOP TrimOff in
  0 < sliderSize (Layout C)
  /\ Revised.shift C options (JS.Fin (-1430)) true =~= JS.Fin (-1430 + 1500)
  /\ JS.le (orient C (Revised.shift C options (JS.Fin (-1430)) true))
           (orient C (getLimit C options true)) = true.
Proof.
  intros C options. split; [reflexivity |]. split; [reflexivity |].
  destruct (revised_shift_lands C options (-1430)) as [H _]; [reflexivity |].
  apply H. reflexivity.
Defined.

(** ** What [loop] does to a position *)

Lemma loop_branch (ex_min ex_max lt0 gt0 max : bool) :
  (lt0 = true -> gt0 = false) ->
  (if max then ex_max else ex_min) = true ->
  (if max then gt0 else lt0) = true ->
  (ex_min && lt0) || (ex_max && gt0) = true /\ ex_max && gt0 = max.
Proof.
  intros A H1 H2. destruct max.
  - rewrite H1, H2. rewrite orb_true_r. auto.
  - rewrite H1, H2, (A H2), andb_false_r. auto.
Qed.

Lemma exceededLimit_side (C : Components) (options : Options) (d : Dom)
      (max : bool) (r : JS.num) :
  exceededLimit C options d (Some max) (Some r)
  = if max
    then JS.lt (orient C (getLimit C options true)) (orient C r)
    else JS.lt (orient C r) (orient C (getLimit C options false)).
Proof.
  unfold exceededLimit, JS.gt. destruct max; cbn [negb andb orb].
  - reflexivity.
  - apply orb_false_r.
Qed.

(** X9: in a [LOOP] slider with a positive cycle length, a finite position
    that exceeds a limit while moving towards it is replaced by its [shift]
    from that limit, and the result no longer exceeds that limit; in the
    earlier revision this needs the waiting flag to be off. *)
Theorem loop_clears_limit (C : Components) (options : Options) (w : World)
        (p : Q) (max : bool) :
  0 < sliderSize (Layout C) ->
  is_type options LOOP = true ->
  exceededLimit C options (dom w) (Some max) (Some (JS.Fin p)) = true ->
  (let diff := orient C (JS.sub (JS.Fin p) (getPosition C (dom w))) in
   if max then JS.gt diff (JS.Fin 0) else JS.lt diff (JS.Fin 0)) = true ->
  (waiting w = false ->
   Earlier.loop C options w (JS.Fin p) = Earlier.shift C options (JS.Fin p) max
   /\ exceededLimit C options (dom w) (Some max)
        (Some (Earlier.loop C options w (JS.Fin p))) = false)
  /\ Revised.loop C options w (JS.Fin p) = Revised.shift C options (JS.Fin p) max
  /\ exceededLimit C options (dom w) (Some max)
       (Some (Revised.loop C options w (JS.Fin p))) = false.
Proof.
  intros Hs HL Hex Hd. cbv zeta in Hd.
  set (diff := orient C (JS.sub (JS.Fin p) (getPosition C (dom w)))) in *.
  destruct (loop_branch
              (exceededLimit C options (dom w) (Some false) (Some (JS.Fin p)))
              (exceededLimit C options (dom w) (Some true) (Some (JS.Fin p)))
              (JS.lt diff (JS.Fin 0)) (JS.gt diff (JS.Fin 0)) max) as [B1 B2].
  { apply lt_asym. }
  { destruct max; exact Hex. }
  { exact Hd. }
  assert (EE : waiting w = false ->
               Earlier.loop C options w (JS.Fin p)
               = Earlier.shift C options (JS.Fin p) max).
  { intros Hw. unfold Earlier.loop. rewrite Hw, HL. cbn [negb andb].
    fold diff. rewrite B1, B2. reflexivity. }
  assert (ER : Revised.loop C options w (JS.Fin p)
               = Revised.shift C options (JS.Fin p) max).
  { unfold Revised.loop. rewrite HL. fold diff. rewrite B1, B2. reflexivity. }
  rewrite exceededLimit_side in Hex.
  destruct (getLimit_Fin C options max) as [L HLim].
  assert (Hside : if max then L * orient_factor C < p * orient_factor C
                  else p * orient_factor C < L * orient_factor C).
  { destruct max; rewrite HLim, !orient_Fin in Hex; apply lt_Fin in Hex; exact Hex. }
  split; [intros Hw; split; [exact (EE Hw) |] | split; [exact ER |]].
  - rewrite (EE Hw), exceededLimit_side.
    destruct (earlier_shift_landing C options p L max Hs HLim)
      as (q & -> & _ & H2 & H3 & _).
    destruct max; rewrite HLim, !orient_Fin; apply le_not_lt, Qle_bool_iff;
      destruct (orient_factor_cases C) as [F | F]; rewrite F in *; lra.
  - rewrite ER, exceededLimit_side.
    destruct (revised_shift_landing C options Hs p L max HLim) as (q & -> & B).
    { destruct max; lra. }
    destruct max; rewrite HLim, !orient_Fin; apply le_not_lt, Qle_bool_iff; lra.
Qed.

Lemma loop_clears_limit_witness :
  let C := five_slides true 300 4 in
  let options := plain_options LOOP TrimOff in
  let w := world_at (-380) in
  exceededLimit C options (dom w) (Some true) (Some (JS.Fin (-420))) = true
  /\ Revised.loop C options w (JS.Fin (-420)) = Revised.shift C options (JS.Fin (-420)) true
  /\ exceededLimit C options (dom w) (Some true)
       (Some (Revised.loop C options w (JS.Fin (-420)))) = false.
Proof.
  intros C options w. split; [reflexivity |].
  destruct (loop_clears_limit C options w (-420) true) as (_ & H);
    [reflexivity | reflexivity | reflexivity | reflexivity | exact H].
Defined.

(** X10: with a positive cycle length [loop] changes a finite position by a
    whole number of cycles, or not at all, in both revisions and every
    mode. *)
Theorem loop_whole_cycles (C : Components) (options : Options) (w : World) (p : Q) :
  0 < sliderSize (Layout C) ->
  (exists k : Z,
      Earlier.loop C options w (JS.Fin p)
      =~= JS.Fin (p + inject_Z k * sliderSize (Layout C)))
  /\ (exists k : Z,
      Revised.loop C options w (JS.Fin p)
      =~= JS.Fin (p + inject_Z k * sliderSize (Layout C))).
Proof.
  intros Hs.
  assert (Z0 : JS.Fin p =~= JS.Fin (p + inject_Z 0 * sliderSize (Layout C)))
    by (simpl; ring).
  split.
  - unfold Earlier.loop.
    destruct (negb (waiting w) && is_type options LOOP); [| exists 0%Z; exact Z0].
    match goal with |- context [if ?b then _ else _] => destruct b end;
      [| exists 0%Z; exact Z0].
    match goal with |- context [Earlier.shift C options (JS.Fin p) ?b] =>
      destruct (earlier_shift_Fin C options Hs p b) as (k & q & -> & E) end.
    exists k. exact E.
  - unfold Revised.loop.
    destruct (is_type options LOOP); [| exists 0%Z; exact Z0].
    match goal with |- context [if ?b then _ else _] => destruct b end;
      [| exists 0%Z; exact Z0].
    match goal with |- context [Revised.shift C options (JS.Fin p) ?b] =>
      destruct (revised_shift_cycles C options Hs p b) as (k & q & -> & E) end.
    exists k. exact E.
Qed.

Lemma loop_whole_cycles_witness :
  let C := five_slides true 300 4 in
  let options := plain_options LOOP TrimOff in
  let w := world_at (-380) in
  0 < sliderSize (Layout C)
  /\ Revised.loop C options w (JS.Fin (-420)) =~= JS.Fin (-420 + 500)
  /\ exists k : Z,
      Revised.loop C options w (JS.Fin (-420))
      =~= JS.Fin (-420 + inject_Z k * sliderSize (Layout C)).
Proof.
  intros C options w. split; [reflexivity |]. split; [reflexivity |].
  destruct (loop_whole_cycles C options w (-420)) as [_ H];
    [reflexivity | exact H].
Defined.

(** ** The orchestrator in both revisions *)

Lemma strict_neq_Fin_refl (q : Q) : JS.strict_neq (JS.Fin q) (JS.Fin q) = false.
Proof.
  unfold JS.strict_neq. simpl.
  now rewrite (proj2 (Qeq_bool_iff q q) (Qeq_refl q)).
Qed.

Lemma loops_at_rest (C : Components) (options : Options) (w : World) :
  Earlier.loop C options w (getPosition C (dom w)) = getPosition C (dom w)
  /\ Revised.loop C options w (getPosition C (dom w)) = getPosition C (dom w).
Proof.
  destruct (getPosition_Fin C (dom w)) as [g Hg].
  assert (S : getPosition C (dom w) =~= getPosition C (dom w))
    by (rewrite Hg; simpl; reflexivity).
  destruct (same_sub_not_lt_gt C _ _ S) as [Hlt Hgt].
  unfold Earlier.loop, Revised.loop. rewrite Hlt, Hgt, !andb_false_r. simpl.
  split.
  - destruct (negb (waiting w) && is_type options LOOP); reflexivity.
  - destruct (is_type options LOOP); reflexivity.
Qed.

(** X11: [cancel] never wraps: in a slider that is not [FADE] it writes the
    current position as it is, notifies nothing and tells the driver to
    cancel, leaving the state as it was; the earlier revision also clears the
    waiting flag. *)
Theorem cancel_writes_current (C : Components) (options : Options) (w : World) :
  is_type options FADE = false ->
  (let w' := Earlier.cancel C options w in
   transform (dom w') = Some (written C (getPosition C (dom w)))
   /\ trace w' = trace w ++ [TransitionCancel]
   /\ state w' = state w
   /\ Earlier.isBusy w' = false)
  /\ (let w' := Revised.cancel C options w in
      transform (dom w') = Some (written C (getPosition C (dom w)))
      /\ trace w' = trace w ++ [TransitionCancel]
      /\ state w' = state w
      /\ waiting w' = waiting w).
Proof.
  intros HF. split; cbv zeta.
  - unfold Earlier.cancel, Earlier.translate. rewrite HF. cbn [negb given].
    change (dom (set_waiting w false)) with (dom w).
    assert (E : Earlier.loop C options (set_waiting w false) (getPosition C (dom w))
                = getPosition C (dom w))
      by apply (loops_at_rest C options (set_waiting w false)).
    rewrite E. unfold written, write_transform. simpl.
    destruct (resolveX (Direction C)); repeat split.
  - unfold Revised.cancel, Revised.translate. rewrite HF. cbn [negb given].
    rewrite (proj2 (loops_at_rest C options w)).
    destruct (getPosition_Fin C (dom w)) as [g ->].
    rewrite strict_neq_Fin_refl. unfold written, write_transform. simpl.
    destruct (resolveX (Direction C)); repeat split.
Qed.

Lemma cancel_writes_current_witness :
  let C := five_slides true 300 4 in
  let options := plain_options LOOP TrimOff in
  let w := Earlier.move C options (world_at (-450)) 5 0 4 None in
  Earlier.isBusy w = true
  /\ exceededLimit C options (dom w) (Some true) None = true
  /\ transform (dom (Revised.cancel C options w)) = Some (written C (getPosition C (dom w)))
  /\ Earlier.isBusy (Earlier.cancel C options w) = false.
Proof.
  intros C options w. split; [reflexivity |]. split; [reflexivity |].
  destruct (cancel_writes_current C options w) as [(_ & _ & _ & H1) (H2 & _)];
    [reflexivity |].
  split; [exact H2 | exact H1].
Defined.

Lemma earlier_jump_trace (C : Components) (options : Options) (w : World) (i : Z) :
  trace (Earlier.jump C options w i) = trace w.
Proof.
  unfold Earlier.jump, Earlier.translate.
  destruct (negb (is_type options FADE)); reflexivity.
Qed.

Lemma earlier_move_done_shape (C : Components) (options : Options) (w : World)
      (k : MoveClosure) :
  state (Earlier.move_done C options w k) = IDLE
  /\ waiting (Earlier.move_done C options w k) = false
  /\ exists tail,
      trace (Earlier.move_done C options w k)
      = trace w ++ Emit (EVENT_MOVED (cl_index k) (cl_prev k) (cl_dest k)) :: tail
      /\ (tail = []
          \/ (exists f, cl_callback k = Some f /\ tail = [Invoke f])
          \/ tail = [ControllerGo (cl_prev k <? cl_dest k)%Z false (cl_callback k)]).
Proof.
  unfold Earlier.move_done.
  set (w0 := if cl_looping k then Earlier.jump C options w (cl_index k) else w).
  assert (T : trace w0 = trace w).
  { unfold w0. destruct (cl_looping k); [apply earlier_jump_trace | reflexivity]. }
  match goal with |- context [if ?c then _ else _] => destruct c end.
  - repeat split. eexists. split.
    + simpl. rewrite T, <- app_assoc. reflexivity.
    + right. right. reflexivity.
  - destruct (cl_callback k) as [f |].
    + repeat split. eexists. split.
      * simpl. rewrite T, <- app_assoc. reflexivity.
      * right. left. exists f. split; reflexivity.
    + repeat split. exists []. split.
      * simpl. rewrite T. reflexivity.
      * left. reflexivity.
Qed.

(** X12: the earlier life cycle of a move: from a world that is not busy,
    [move] notifies [EVENT_MOVE] and starts the driver towards [dest]; when
    the driver completes, whatever happened to the document meanwhile, the
    state is [IDLE], the component is not busy, and [EVENT_MOVED] has been
    notified after which at most one follow-up (the callback or a further
    step) is requested. *)
Theorem earlier_move_life_cycle (C : Components) (options : Options) (w : World)
        (dest index prev : Z) (callback : option Callback) (d : Dom) :
  Earlier.isBusy w = false ->
  let w1 := Earlier.move C options w dest index prev callback in
  state w1 = MOVING
  /\ dom w1 = dom w
  /\ Earlier.isBusy w1 = negb (dest =? index)%Z || waitForTransition options
  /\ exists k tail,
      trace w1 = trace w ++ [Emit (EVENT_MOVE index prev dest); TransitionStart dest k]
      /\ let w2 := Earlier.move_done C options (with_dom w1 d) k in
         state w2 = IDLE
         /\ Earlier.isBusy w2 = false
         /\ trace w2 = trace w1 ++ Emit (EVENT_MOVED index prev dest) :: tail
         /\ (tail = []
             \/ (exists f, callback = Some f /\ tail = [Invoke f])
             \/ tail = [ControllerGo (prev <? dest)%Z false callback]).
Proof.
  intros Hb w1. subst w1. unfold Earlier.move. rewrite Hb. cbn [negb].
  split; [reflexivity |]. split; [reflexivity |]. split; [reflexivity |].
  set (k := {| cl_dest := dest; cl_index := index; cl_prev := prev;
               cl_position := getPosition C (dom w);
               cl_looping := negb (dest =? index)%Z; cl_callback := callback |}).
  exists k.
  match goal with
  | |- context [Earlier.move_done C options ?w1 k] =>
      destruct (earlier_move_done_shape C options w1 k) as (S1 & S2 & tail & S3 & S4)
  end.
  exists tail. split.
  - unfold emit, perform. simpl. rewrite <- app_assoc. reflexivity.
  - repeat split; assumption.
Qed.

Lemma earlier_move_life_cycle_witness :
  let C := five_slides true 300 4 in
  let options := plain_options LOOP TrimOff in
  let w := world_at 0 in
  Earlier.isBusy w = false
  /\ state (Earlier.move C options w 5 0 4 (Some 7%nat)) = MOVING
  /\ Earlier.isBusy (Earlier.move C options w 5 0 4 (Some 7%nat)) = true.
Proof.
  intros C options w. split; [reflexivity |].
  destruct (earlier_move_life_cycle C options w 5 0 4 (Some 7%nat) (dom_at (-500)))
    as (H1 & _ & H3 & _); [reflexivity |].
  split; [exact H1 | exact H3].
Defined.

(** X13: when an earlier move that loops ([dest] differs from [index])
    completes in a slider that is not [FADE], the list is re-homed on the
    trimmed position of [index] written as it is: the waiting flag is still
    set during that jump, so [loop] does not wrap it, whatever the document
    has become. A move that does not loop leaves the document alone on
    completion. *)
Theorem earlier_completion_rehomes (C : Components) (options : Options)
        (w : World) (dest index prev : Z) (callback : option Callback) (d : Dom) :
  Earlier.isBusy w = false ->
  exists k,
    trace (Earlier.move C options w dest index prev callback)
    = trace w ++ [Emit (EVENT_MOVE index prev dest); TransitionStart dest k]
    /\ let w2 := Earlier.move_done C options
                   (with_dom (Earlier.move C options w dest index prev callback) d) k in
       (dest <> index -> is_type options FADE = false ->
        transform (dom w2) = Some (written C (toPosition C options index true)))
       /\ (dest = index -> dom w2 = d).
Proof.
  intros Hb. unfold Earlier.move. rewrite Hb. cbn [negb].
  eexists. split.
  { unfold emit, perform. simpl. rewrite <- app_assoc. reflexivity. }
  cbv zeta. unfold Earlier.move_done. cbn [cl_looping cl_index].
  split.
  - intros Hne HF. apply Z.eqb_neq in Hne. rewrite Hne. cbn [negb orb].
    unfold Earlier.jump, Earlier.translate, Earlier.loop. rewrite HF.
    cbn [negb given andb with_dom waiting perform emit set set_waiting].
    match goal with |- context [if ?c then _ else _] => destruct c end;
      [| destruct callback];
      unfold written, write_transform; simpl;
      destruct (resolveX (Direction C)); reflexivity.
  - intros He. apply Z.eqb_eq in He. rewrite He. cbn [negb].
    match goal with |- context [if ?c then _ else _] => destruct c end;
      [| destruct callback]; reflexivity.
Qed.

Lemma earlier_completion_rehomes_witness :
  let C := five_slides true 300 4 in
  let options := plain_options LOOP TrimOff in
  let w := world_at 0 in
  Earlier.isBusy w = false
  /\ exists k,
      trace (Earlier.move C options w 5 0 4 None)
      = trace w ++ [Emit (EVENT_MOVE 0 4 5); TransitionStart 5 k]
      /\ let w2 := Earlier.move_done C options
                     (with_dom (Earlier.move C options w 5 0 4 None) (dom_at (-500))) k in
         (5%Z <> 0%Z -> is_type options FADE = false ->
          transform (dom w2) = Some (written C (toPosition C options 0 true)))
         /\ (5%Z = 0%Z -> dom w2 = dom_at (-500)).
Proof.
  intros C options w. split; [reflexivity |].
  apply (earlier_completion_rehomes C options w 5 0 4 None (dom_at (-500))).
  reflexivity.
Defined.

(** X14: unless [trimSpace] is ['move'] and [dest] differs from [prev], the
    completion of an earlier move requests no further step from the
    controller: after [EVENT_MOVED] it invokes the callback when there is
    one, and nothing else. *)
Theorem earlier_completion_follow_up (C : Components) (options : Options)
        (w : World) (k : MoveClosure) :
  trimSpace options <> TrimMove \/ cl_dest k = cl_prev k ->
  trace (Earlier.move_done C options w k)
  = trace w ++ Emit (EVENT_MOVED (cl_index k) (cl_prev k) (cl_dest k))
      :: match cl_callback k with Some f => [Invoke f] | None => [] end.
Proof.
  intros H. unfold Earlier.move_done.
  set (w0 := if cl_looping k then Earlier.jump C options w (cl_index k) else w).
  assert (T : trace w0 = trace w).
  { unfold w0. destruct (cl_looping k); [apply earlier_jump_trace | reflexivity]. }
  assert (G : match trimSpace options with TrimMove => true | _ => false end
              && negb (cl_dest k =? cl_prev k)%Z = false).
  { destruct H as [H | H].
    - destruct (trimSpace options); try reflexivity. congruence.
    - rewrite H, Z.eqb_refl. apply andb_false_r. }
  rewrite G. cbn [andb].
  destruct (cl_callback k); simpl; rewrite T, <- ?app_assoc; reflexivity.
Qed.

Lemma earlier_completion_follow_up_witness :
  let C := five_slides true 300 4 in
  let options := plain_options SLIDE TrimOn in
  let k := {| cl_dest := 2; cl_index := 2; cl_prev := 1;
              cl_position := JS.Fin 0; cl_looping := false;
              cl_callback := Some 7%nat |} in
  trace (Earlier.move_done C options (world_at 0) k)
  = [Emit (EVENT_MOVED 2 1 2); Invoke 7%nat].
Proof.
  intros C options k.
  apply (earlier_completion_follow_up C options (world_at 0) k).
  left. discriminate.
Defined.

Lemma revised_shift_Fin_or_NaN (C : Components) (options : Options) (p : Q)
      (backwards : bool) :
  (exists q, Revised.shift C options (JS.Fin p) backwards = JS.Fin q)
  \/ Revised.shift C options (JS.Fin p) backwards = JS.NaN.
Proof.
  destruct (getLimit_Fin C options backwards) as [L HL].
  unfold Revised.shift. rewrite HL. cbn [JS.sub JS.add JS.neg JS.abs].
  unfold JS.div. destruct (sliderSize (Layout C) ?= 0) eqn:E.
  - unfold JS.signed_inf. destruct (Qabs (p + - L) ?= 0); cbn [JS.ceil].
    + left. unfold JS.or_else. cbn [JS.truthy JS.mul].
      rewrite orient_Fin. cbn [JS.mul JS.add JS.neg]. eauto.
    + right. unfold JS.or_else. cbn [JS.truthy JS.mul]. rewrite E. reflexivity.
    + right. unfold JS.or_else. cbn [JS.truthy JS.mul]. rewrite E. reflexivity.
  - left. cbn [JS.ceil]. unfold JS.or_else, JS.truthy.
    destruct (negb (Qeq_bool _ 0)); cbn [JS.mul]; rewrite orient_Fin;
      cbn [JS.mul JS.add JS.neg]; eauto.
  - left. cbn [JS.ceil]. unfold JS.or_else, JS.truthy.
    destruct (negb (Qeq_bool _ 0)); cbn [JS.mul]; rewrite orient_Fin;
      cbn [JS.mul JS.add JS.neg]; eauto.
Qed.

Lemma revised_cancel_shape (C : Components) (options : Options) (w : World) :
  Revised.cancel C options w
  = perform (if is_type options FADE then w
             else write_transform C w (getPosition C (dom w)))
            TransitionCancel.
Proof.
  unfold Revised.cancel, Revised.translate.
  destruct (is_type options FADE); cbn [negb given]; [reflexivity |].
  rewrite (proj2 (loops_at_rest C options w)).
  destruct (getPosition_Fin C (dom w)) as [g ->].
  rewrite strict_neq_Fin_refl. reflexivity.
Qed.

Lemma canShift_finite (C : Components) (options : Options) (x : Extent)
      (w : World) (backwards : bool) :
  RevisedOrchestrator.canShift C options x w backwards = true ->
  exists q, Revised.shift C options (getPosition C (dom w)) backwards = JS.Fin q.
Proof.
  unfold RevisedOrchestrator.canShift. destruct (getPosition_Fin C (dom w)) as [g ->].
  destruct (revised_shift_Fin_or_NaN C options g backwards) as [H | ->]; [intros _; exact H |].
  destruct backwards; simpl; discriminate.
Qed.

(** X15: the revised [move] never rejects a call: whatever the state, it
    enters [MOVING], notifies [EVENT_MOVE] and starts the driver towards
    [index], not [dest]. When [dest] differs from [index] and [canShift]
    allows it, the transition is first cancelled and the list is put on
    [shift( position, dest > index )] as it is, without notifying
    [EVENT_SHIFTED]; otherwise the document is left alone. *)
Theorem revised_move_proceeds (C : Components) (options : Options) (x : Extent)
        (w : World) (dest index prev : Z) (callback : option Callback) :
  let pre_shift :=
    negb (dest =? index)%Z
    && RevisedOrchestrator.canShift C options x w (index <? dest)%Z in
  let w1 := RevisedOrchestrator.move C options x w dest index prev callback in
  state w1 = MOVING
  /\ (exists k,
        cl_callback k = callback
        /\ trace w1 = trace w ++ (if pre_shift then [TransitionCancel] else [])
                        ++ [Emit (EVENT_MOVE index prev dest); TransitionStart index k])
  /\ if pre_shift
     then is_type options FADE = false ->
          transform (dom w1)
          = Some (written C (Revised.shift C options (getPosition C (dom w))
                                           (index <? dest)%Z))
     else dom w1 = dom w.
Proof.
  intros pre_shift w1. subst w1. unfold RevisedOrchestrator.move. fold pre_shift.
  destruct pre_shift eqn:E.
  - apply andb_true_iff in E. destruct E as [_ E].
    destruct (canShift_finite C options x w _ E) as [q Hq].
    rewrite Hq, revised_cancel_shape. unfold Revised.translate.
    destruct (is_type options FADE); cbn [negb given].
    + split; [reflexivity |]. split; [| discriminate].
      eexists. split; cycle 1.
      { unfold emit, perform. simpl. rewrite <- !app_assoc. reflexivity. }
      reflexivity.
    + rewrite strict_neq_Fin_refl.
      split; [reflexivity |]. split.
      * eexists. split; cycle 1.
        { unfold emit, perform. simpl. rewrite <- !app_assoc. reflexivity. }
        reflexivity.
      * intros _. unfold written, write_transform. simpl.
        destruct (resolveX (Direction C)); reflexivity.
  - split; [reflexivity |]. split; [| reflexivity].
    eexists. split; cycle 1.
    { unfold emit, perform. simpl. rewrite <- !app_assoc. reflexivity. }
    reflexivity.
Qed.

(** X16: in a slider that is neither [LOOP] nor [FADE], [jump] writes the
    trimmed position of the index as it is and notifies nothing, in both
    revisions. *)
Theorem jump_plain (C : Components) (options : Options) (w : World) (index : Z) :
  is_type options LOOP = false ->
  is_type options FADE = false ->
  Earlier.jump C options w index
  = write_transform C w (toPosition C options index true)
  /\ Revised.jump C options w index
     = write_transform C w (toPosition C options index true).
Proof.
  intros HL HF.
  unfold Earlier.jump, Revised.jump, Earlier.translate, Revised.translate,
    Earlier.loop, Revised.loop.
  rewrite HL, HF, andb_false_r. cbn [negb given].
  destruct (toPosition_Fin C options index true) as [q ->].
  rewrite strict_neq_Fin_refl. split; reflexivity.
Qed.

Lemma jump_plain_witness :
  let C := five_slides true 300 4 in
  let options := plain_options SLIDE TrimOn in
  transform (dom (Revised.jump C options (world_at 0) 4)) = Some (JS.Fin (-200), JS.Fin 0)
  /\ Earlier.jump C options (world_at 0) 4
     = write_transform C (world_at 0) (toPosition C options 4 true)
  /\ Revised.jump C options (world_at 0) 4
     = write_transform C (world_at 0) (toPosition C options 4 true).
Proof.
  intros C options. split; [reflexivity |].
  apply (jump_plain C options (world_at 0) 4); reflexivity.
Defined.

Lemma revised_move_proceeds_witness :
  let C := five_slides true 300 4 in
  let options := plain_options LOOP TrimOff in
  let x := {| listScroll := 1500; trackSize := 300 |} in
  let w1 := RevisedOrchestrator.move C options x (world_at 0) (-1) 4 0 None in
  RevisedOrchestrator.canShift C options x (world_at 0) false = true
  /\ transform (dom w1) = Some (JS.Fin (-500), JS.Fin 0)
  /\ state w1 = MOVING.
Proof.
  intros C options x w1. split; [reflexivity |]. split; [reflexivity |].
  apply (revised_move_proceeds C options x (world_at 0) (-1) 4 0 None).
Defined.

(** ** The two revisions side by side *)

Lemma ceiling_positive (s a : Q) : 0 < s -> 0 < a -> (1 <= Qceiling (a / s))%Z.
Proof.
  intros Hs Ha.
  assert (H : 0 < a / s) by (apply Qlt_shift_div_l; lra).
  assert (H' := Qle_ceiling (a / s)).
  assert (L : 0 < inject_Z (Qceiling (a / s))) by lra.
  change 0 with (inject_Z 0) in L. rewrite <- Zlt_Qlt in L. lia.
Qed.

(** Strictly beyond the limit in the direction of the shift, the two
    revisions of [shift] agree. *)
Lemma shifts_agree (C : Components) (options : Options) (p L : Q) (backwards : bool) :
  0 < sliderSize (Layout C) ->
  getLimit C options backwards = JS.Fin L ->
  (if backwards then L * orient_factor C < p * orient_factor C
   else p * orient_factor C < L * orient_factor C) ->
  exists q1 q2,
    Earlier.shift C options (JS.Fin p) backwards = JS.Fin q1
    /\ Revised.shift C options (JS.Fin p) backwards = JS.Fin q2
    /\ q1 == q2.
Proof.
  intros Hs HL Hside.
  destruct (earlier_shift_value C options Hs p L backwards HL) as (q1 & H1 & V).
  destruct (revised_shift_Fin C options Hs p L backwards HL) as (q2 & H2 & E).
  exists q1, q2. split; [exact H1 |]. split; [exact H2 |].
  destruct V as [[V0 _] | [[Vp V] | [Vn V]]].
  - exfalso. destruct (orient_factor_cases C) as [F | F]; rewrite F in *;
      destruct backwards; lra.
  - assert (A : Qabs (p - L) == p - L) by (apply Qabs_pos; lra).
    assert (K1 := ceiling_positive _ (p - L) Hs Vp).
    rewrite A in E. rewrite Z.max_r in E by lia.
    rewrite V, E.
    destruct (orient_factor_cases C) as [F | F]; rewrite F in *;
      destruct backwards; try lra; ring.
  - assert (A : Qabs (p - L) == L - p) by (rewrite Qabs_neg by lra; ring).
    assert (Vn' : 0 < L - p) by lra.
    assert (K1 := ceiling_positive _ (L - p) Hs Vn').
    rewrite A in E. rewrite Z.max_r in E by lia.
    rewrite V, E.
    destruct (orient_factor_cases C) as [F | F]; rewrite F in *;
      destruct backwards; try lra; ring.
Qed.

(** X17: with a positive cycle length and the waiting flag off, the two
    revisions of [loop] return the same position for every finite position:
    they differ in [shift] only on positions [loop] never shifts. *)
Theorem loop_revisions_agree (C : Components) (options : Options) (w : World)
        (p : Q) :
  0 < sliderSize (Layout C) ->
  waiting w = false ->
  Earlier.loop C options w (JS.Fin p) =~= Revised.loop C options w (JS.Fin p).
Proof.
  intros Hs Hw. unfold Earlier.loop, Revised.loop. rewrite Hw. cbn [negb andb].
  destruct (is_type options LOOP); [| simpl; reflexivity].
  set (diff := orient C (JS.sub (JS.Fin p) (getPosition C (dom w)))).
  rewrite !exceededLimit_side.
  destruct (getLimit_Fin C options true) as [Lmax Hmax].
  destruct (getLimit_Fin C options false) as [Lmin Hmin].
  destruct (JS.lt (orient C (getLimit C options true)) (orient C (JS.Fin p))
            && JS.gt diff (JS.Fin 0)) eqn:Emax.
  - rewrite orb_true_r. apply andb_true_iff in Emax. destruct Emax as [Emax _].
    rewrite Hmax, !orient_Fin in Emax. apply lt_Fin in Emax.
    destruct (shifts_agree C options p Lmax true Hs Hmax Emax) as (q1 & q2 & -> & -> & E).
    exact E.
  - rewrite orb_false_r.
    destruct (JS.lt (orient C (JS.Fin p)) (orient C (getLimit C options false))
              && JS.lt diff (JS.Fin 0)) eqn:Emin; [| simpl; reflexivity].
    apply andb_true_iff in Emin. destruct Emin as [Emin _].
    rewrite Hmin, !orient_Fin in Emin. apply lt_Fin in Emin.
    destruct (shifts_agree C options p Lmin false Hs Hmin Emin) as (q1 & q2 & -> & -> & E).
    exact E.
Qed.

Lemma loop_revisions_agree_witness :
  let C := five_slides true 300 4 in
  let options := plain_options LOOP TrimOff in
  let w := world_at (-380) in
  Earlier.shift C options (JS.Fin (-400)) true =~= JS.Fin (-400)
  /\ Revised.shift C options (JS.Fin (-400)) true =~= JS.Fin 100
  /\ Earlier.loop C options w (JS.Fin (-1430)) =~= JS.Fin 70
  /\ Earlier.loop C options w (JS.Fin (-1430)) =~= Revised.loop C options w (JS.Fin (-1430)).
Proof.
  intros C options w. split; [reflexivity |]. split; [reflexivity |].
  split; [reflexivity |].
  apply (loop_revisions_agree C options w (-1430)); reflexivity.
Defined.

(** ** Uniform slides *)

Lemma sorted_transfer (R1 R2 : Z -> Z -> Prop) (l : list Z) :
  (forall a b, In a l -> In b l -> R1 a b -> R2 a b) ->
  StronglySorted R1 l -> StronglySorted R2 l.
Proof.
  induction l as [| a l IH]; intros H HS; [constructor |].
  apply StronglySorted_inv in HS. destruct HS as [HS Ha]. constructor.
  - apply IH; [| exact HS]. intros x y Hx Hy. apply H; now right.
  - rewrite Forall_forall in *. intros y Hy. apply H; [now left | now right |].
    apply Ha. exact Hy.
Qed.

Lemma uniform_registry_ordered (C : Components) (options : Options) (w : Q) :
  uniform C w ->
  StronglySorted Z.lt (Slides C) ->
  StronglySorted (not_after C options) (Slides C).
Proof.
  intros Hu Hs.
  apply (sorted_transfer Z.lt); [| exact Hs].
  intros a b Ha Hb Hab. unfold not_after.
  destruct (toPosition_raw_Fin C options a) as (ra & Hra & Ea).
  destruct (toPosition_raw_Fin C options b) as (rb & Hrb & Eb).
  destruct (toPosition_Fin C options a true) as [ta Hta].
  destruct (toPosition_Fin C options b true) as [tb Htb].
  rewrite Hta, Htb, !orient_Fin. apply Qle_bool_iff.
  unfold toPosition in Hta, Htb, Hra, Hrb. rewrite Hra in Hta. rewrite Hrb in Htb.
  apply (trim_keeps_order C options ra rb ta tb); [| exact Hta | exact Htb].
  assert (D := uniform_raw C options w Hu a b Ha Hb).
  destruct Hu as (Hw & _).
  assert (P : 0 <= w * inject_Z (b - a)).
  { apply Qmult_le_0_compat; [lra |].
    change 0 with (inject_Z 0). rewrite <- Zle_Qle. lia. }
  assert (F2 : orient_factor C * orient_factor C == 1)
    by (destruct (orient_factor_cases C) as [-> | ->]; reflexivity).
  assert (D2 : rb * orient_factor C - ra * orient_factor C
               == w * inject_Z (b - a) * (orient_factor C * orient_factor C)).
  { rewrite Ea, Eb.
    setoid_replace (raw_value C options b * orient_factor C
                    - raw_value C options a * orient_factor C)
      with ((raw_value C options b - raw_value C options a) * orient_factor C)
      by ring.
    rewrite D. ring. }
  rewrite F2 in D2. lra.
Qed.

(** X18: over an ascending registry of uniform slides the trimmed positions
    are in oriented order, trimming or not; so [toIndex] of a finite position
    returns a closest slide there. *)
Theorem uniform_registry_closest (C : Components) (options : Options) (w p : Q)
        (x : Z) :
  uniform C w ->
  StronglySorted Z.lt (Slides C) ->
  In x (Slides C) ->
  StronglySorted (not_after C options) (Slides C)
  /\ JS.le (distance C options (JS.Fin p) (toIndex C options (JS.Fin p)))
           (distance C options (JS.Fin p) x) = true.
Proof.
  intros Hu Hs Hx.
  assert (HO := uniform_registry_ordered C options w Hu Hs).
  split; [exact HO |].
  unfold toIndex. destruct (Slides C) as [| a l]; [contradiction |].
  cbn [toIndex_scan].
  change (JS.abs (JS.sub (toPosition C options a true) (JS.Fin p)))
    with (distance C options (JS.Fin p) a).
  assert (E : JS.le (distance C options (JS.Fin p) a) JS.Infinity = true)
    by (rewrite distance_Fin; reflexivity).
  rewrite E. destruct (toIndex_scan_closest C options p l a HO) as [H1 H2].
  cbn zeta in H1, H2. destruct Hx as [<- | Hx]; [exact H1 | apply H2; exact Hx].
Qed.

Lemma uniform_registry_closest_witness :
  let C := five_slides true 300 4 in
  let options := plain_options SLIDE TrimOn in
  toIndex C options (JS.Fin (-130)) = 1%Z
  /\ StronglySorted (not_after C options) (Slides C)
  /\ JS.le (distance C options (JS.Fin (-130)) (toIndex C options (JS.Fin (-130))))
           (distance C options (JS.Fin (-130)) 2) = true.
Proof.
  intros C options. split; [reflexivity |].
  apply (uniform_registry_closest C options 100 (-130) 2).
  - apply five_slides_uniform.
  - apply five_slides_sorted.
  - simpl. tauto.
Defined.

(** ** Round trip between indices and positions *)







